(** * Optimizer update rules of the optimization notebooks

    Shallow embedding of the update rules that the notebooks implement
    from scratch, [sgd_momentum] (Momentum notebook), [adagrad]
    (adagrad.ipynb), [rmsprop] (rmsprop.ipynb) and [adam] (adam.ipynb), and
    of the toy two-dimensional step [momentum_2d] (Momentum notebook).

    Numbers.  The notebooks compute with floating-point tensors (NDArray)
    and Python floats.  Here every number is a real: rounding, NaN and Inf
    are outside the model, so [1 - 0.9] is [0.1].  Division is Rocq's total
    real division.  Python raises [OverflowError] where a power of floats
    or the conversion of an integer leaves the range of floats; the model
    does not, and what the theorems say on returning or raising they say
    inside that range ([float_sized]).

    Tensors.  An NDArray is the flat list of its elements; an elementwise
    operation on two tensors of different length raises [ShapeError]
    (broadcasting between different shapes is not modelled).

    Effects.  The rules mutate their arguments in place and may raise.  A
    computation is a function from the mutable state to an outcome and the
    state it leaves behind, so that what was already written when an
    exception is raised stays written. *)

From Stdlib Require Import Reals Lra Lia ZArith.
From stdpp Require Import base gmap strings list.

Local Open Scope R_scope.

(** ** Values *)

Abbreviation tensor := (list R).

(** A parameter [p]: its elements ([p[:]]) and its gradient ([p.grad]),
    which the framework recomputes before every call of a rule. *)
Record ndarray := NDArray { data : tensor; grad : tensor }.

(** The numbers a hyperparameter dictionary or a global variable holds. *)
Inductive pyval :=
| PyInt (z : Z)
| PyFloat (r : R).

(** The float that arithmetic makes of a number.  (Python raises
    [OverflowError] for an integer beyond the range of floats; the model
    converts every integer.  See [float_sized] below.) *)
Definition to_R (x : pyval) : R :=
  match x with
  | PyInt z => IZR z
  | PyFloat r => r
  end.

(** [b ** e] for a positive float [b].  (Python raises [OverflowError]
    where the power leaves the range of floats, as [0.9 ** -7000] does; the
    model computes every power.  See [time_step_in_range] below.) *)
Definition py_pow (b : R) (e : pyval) : R :=
  match e with
  | PyInt z => powerRZ b z
  | PyFloat r => Rpower b r
  end.

(** [x + 1], as computed by [x += 1]. *)
Definition py_add1 (x : pyval) : pyval :=
  match x with
  | PyInt z => PyInt (z + 1)
  | PyFloat r => PyFloat (r + 1)
  end.

Inductive exn :=
| KeyError (k : string)
| NameError (k : string)
| ShapeError.

(** ** Computations over a mutable state *)

Definition M (St A : Type) : Type := St -> (exn + A) * St.

Definition ret {St A} (a : A) : M St A := fun st => (inr a, st).

Definition bind {St A B} (c : M St A) (k : A -> M St B) : M St B :=
  fun st =>
    match c st with
    | (inl e, st') => (inl e, st')
    | (inr a, st') => k a st'
    end.

Definition raise {St A} (e : exn) : M St A := fun st => (inl e, st).

Definition read {St A} (f : St -> A) : M St A := fun st => (inr (f st), st).

Definition modify {St} (f : St -> St) : M St unit := fun st => (inr tt, f st).

Definition lift {St A} (r : exn + A) : M St A :=
  match r with
  | inl e => raise e
  | inr a => ret a
  end.

Declare Scope py_scope.
Delimit Scope py_scope with py.
Notation "x <- c ;; k" := (bind c (fun x => k))
  (at level 20, c at level 99, k at level 200, only parsing) : py_scope.
Notation "c ;; k" := (bind c (fun _ => k))
  (at level 100, k at level 200, right associativity, only parsing) : py_scope.
Local Open Scope py_scope.

(** [d[k]] on a dictionary. *)
Definition getitem {St} (d : gmap string pyval) (k : string) : M St pyval :=
  match d !! k with
  | Some v => ret v
  | None => raise (KeyError k)
  end.

(** ** Tensor operations *)

(** scalar [*] tensor, tensor [/] scalar, tensor [+] scalar *)
Definition smul (c : R) (t : tensor) : tensor := Rmult c <$> t.
Definition sdiv (t : tensor) (c : R) : tensor := (fun x => x / c) <$> t.
Definition sadd (t : tensor) (c : R) : tensor := (fun x => x + c) <$> t.

(** [t.square()] and [t.sqrt()] *)
Definition square (t : tensor) : tensor := (fun x => x * x) <$> t.
Definition tsqrt (t : tensor) : tensor := sqrt <$> t.

(** An elementwise operation on two tensors of one shape.  (Where the
    shapes differ mxnet broadcasts if it can; the model stops with
    [ShapeError] there, and what the theorems say of values is said for
    matching shapes.) *)
Definition ew (f : R -> R -> R) (a b : tensor) : exn + tensor :=
  if decide (length a = length b) then inr (zip_with f a b)
  else inl ShapeError.

(** ** One parameter and its state, as bound by [for p, s in zip(...)] *)

Section Cell.
Context {S : Type}.

Definition read_data : M (ndarray * S) tensor := read (fun c => data c.1).
Definition read_grad : M (ndarray * S) tensor := read (fun c => grad c.1).
Definition read_state : M (ndarray * S) S := read snd.

(** [p[:] = t] *)
Definition assign_data (t : tensor) : M (ndarray * S) unit :=
  fun c =>
    if decide (length t = length (data c.1))
    then (inr tt, (NDArray t (grad c.1), c.2))
    else (inl ShapeError, c).
End Cell.

(** [s[:] = t] for a rule whose state is one tensor. *)
Definition assign_state (t : tensor) : M (ndarray * tensor) unit :=
  fun c =>
    if decide (length t = length c.2)
    then (inr tt, (c.1, t))
    else (inl ShapeError, c).

(** [v[:] = t] and [s[:] = t] for Adam, whose state is the pair [(v, s)]. *)
Definition assign_v (t : tensor) : M (ndarray * (tensor * tensor)) unit :=
  fun c =>
    if decide (length t = length c.2.1)
    then (inr tt, (c.1, (t, c.2.2)))
    else (inl ShapeError, c).

Definition assign_s (t : tensor) : M (ndarray * (tensor * tensor)) unit :=
  fun c =>
    if decide (length t = length c.2.2)
    then (inr tt, (c.1, (c.2.1, t)))
    else (inl ShapeError, c).

(** [for p, s in zip(params, states): body].  The loop stops at the first
    exception; the pairs already visited keep their new contents. *)
Fixpoint for_zip {P S} (body : M (P * S) unit) (ps : list P) (ss : list S)
  : (exn + unit) * (list P * list S) :=
  match ps, ss with
  | p :: ps', s :: ss' =>
      match body (p, s) with
      | (inl e, (p', s')) => (inl e, (p' :: ps', s' :: ss'))
      | (inr _, (p', s')) =>
          let '(r, (ps'', ss'')) := for_zip body ps' ss' in
          (r, (p' :: ps'', s' :: ss''))
      end
  | _, _ => (inr tt, (ps, ss))
  end.

(** ** The arguments of an update rule *)

Record store (S : Type) := Store {
  params : list ndarray;
  states : list S;
  hyperparams : gmap string pyval
}.
Arguments Store {S} _ _ _.
Arguments params {S} _.
Arguments states {S} _.
Arguments hyperparams {S} _.

Section Store.
Context {S : Type}.

(** The loop of a rule; the body reads the dictionary [hyperparams],
    which no loop body writes. *)
Definition loop (body : gmap string pyval -> M (ndarray * S) unit)
  : M (store S) unit :=
  fun st =>
    let '(r, (ps, ss)) :=
      for_zip (body (hyperparams st)) (params st) (states st) in
    (r, Store ps ss (hyperparams st)).

(** [hyperparams[k]] and [hyperparams[k] = v] *)
Definition hp_get (k : string) : M (store S) pyval :=
  fun st => getitem (hyperparams st) k st.

Definition hp_set (k : string) (v : pyval) : M (store S) unit :=
  modify (fun st => Store (params st) (states st) (<[k := v]> (hyperparams st))).
End Store.

(** ** Initial states *)

(** [nd.zeros]: a tensor of [n] zeros. *)
Definition zeros (n : nat) : tensor := replicate n 0.

(** The states at the start of a run, for a weight of [d] elements
    ([features.shape[1]] rows, one column) and a bias of one element:
<<
def init_momentum_states():
    v_w = nd.zeros((features.shape[1], 1))
    v_b = nd.zeros(1)
    return (v_w, v_b)
>>
    [init_adagrad_states] and [init_rmsprop_states] are the same with [s]
    for [v]; [init_adam_states] returns [((v_w, s_w), (v_b, s_b))]. *)
Definition init_momentum_states (d : nat) : list tensor := [zeros d; zeros 1].
Definition init_adagrad_states (d : nat) : list tensor := [zeros d; zeros 1].
Definition init_rmsprop_states (d : nat) : list tensor := [zeros d; zeros 1].
Definition init_adam_states (d : nat) : list (tensor * tensor) :=
  [(zeros d, zeros d); (zeros 1, zeros 1)].

(** ** The update rules *)

(** Momentum notebook:
<<
def sgd_momentum(params, states, hyperparams):
    for p, v in zip(params, states):
        v[:] = hyperparams['momentum'] * v + hyperparams['lr'] * p.grad
        p[:] -= v
>> *)
Definition sgd_momentum_body (hyperparams : gmap string pyval)
  : M (ndarray * tensor) unit :=
  momentum <- getitem hyperparams "momentum" ;;
  v <- read_state ;;
  lr <- getitem hyperparams "lr" ;;
  g <- read_grad ;;
  v' <- lift (ew Rplus (smul (to_R momentum) v) (smul (to_R lr) g)) ;;
  assign_state v' ;;
  p <- read_data ;;
  v <- read_state ;;
  p' <- lift (ew Rminus p v) ;;
  assign_data p'.

Definition sgd_momentum : M (store tensor) unit := loop sgd_momentum_body.

(** adagrad.ipynb:
<<
def adagrad(params, states, hyperparams):
    eps = 1e-6
    for p, s in zip(params, states):
        s[:] += p.grad.square()
        p[:] -= hyperparams['lr'] * p.grad / (s + eps).sqrt()
>> *)
Definition adagrad_body (eps : R) (hyperparams : gmap string pyval)
  : M (ndarray * tensor) unit :=
  s <- read_state ;;
  g <- read_grad ;;
  s' <- lift (ew Rplus s (square g)) ;;
  assign_state s' ;;
  p <- read_data ;;
  lr <- getitem hyperparams "lr" ;;
  g <- read_grad ;;
  s <- read_state ;;
  upd <- lift (ew Rdiv (smul (to_R lr) g) (tsqrt (sadd s eps))) ;;
  p' <- lift (ew Rminus p upd) ;;
  assign_data p'.

Definition adagrad : M (store tensor) unit :=
  let eps := 1e-6 in
  loop (adagrad_body eps).

(** rmsprop.ipynb:
<<
def rmsprop(params, states, hyperparams):
    gamma, eps = hyperparams['gamma'], 1e-6
    for p, s in zip(params, states):
        s[:] = gamma * s + (1 - gamma) * p.grad.square()
        p[:] -= hyperparams['lr'] * p.grad / (s + eps).sqrt()
>> *)
Definition rmsprop_body (gamma eps : R) (hyperparams : gmap string pyval)
  : M (ndarray * tensor) unit :=
  s <- read_state ;;
  g <- read_grad ;;
  s' <- lift (ew Rplus (smul gamma s) (smul (1 - gamma) (square g))) ;;
  assign_state s' ;;
  p <- read_data ;;
  lr <- getitem hyperparams "lr" ;;
  g <- read_grad ;;
  s <- read_state ;;
  upd <- lift (ew Rdiv (smul (to_R lr) g) (tsqrt (sadd s eps))) ;;
  p' <- lift (ew Rminus p upd) ;;
  assign_data p'.

Definition rmsprop : M (store tensor) unit :=
  gamma <- hp_get "gamma" ;;
  let eps := 1e-6 in
  loop (rmsprop_body (to_R gamma) eps).

(** adam.ipynb:
<<
def adam(params, states, hyperparams):
    beta1, beta2, eps = 0.9, 0.999, 1e-6
    for p, (v, s) in zip(params, states):
        v[:] = beta1 * v + (1 - beta1) * p.grad
        s[:] = beta2 * s + (1 - beta2) * p.grad.square()
        v_bias_corr = v / (1 - beta1 ** hyperparams['t'])
        s_bias_corr = s / (1 - beta2 ** hyperparams['t'])
        p[:] -= hyperparams['lr'] * v_bias_corr / (s_bias_corr.sqrt() + eps)
    hyperparams['t'] += 1
>> *)
Definition bias_corr (beta : R) (t : pyval) (x : tensor) : tensor :=
  sdiv x (1 - py_pow beta t).

Definition adam_body (beta1 beta2 eps : R) (hyperparams : gmap string pyval)
  : M (ndarray * (tensor * tensor)) unit :=
  v <- read (fun c => c.2.1) ;;
  g <- read_grad ;;
  v' <- lift (ew Rplus (smul beta1 v) (smul (1 - beta1) g)) ;;
  assign_v v' ;;
  s <- read (fun c => c.2.2) ;;
  g <- read_grad ;;
  s' <- lift (ew Rplus (smul beta2 s) (smul (1 - beta2) (square g))) ;;
  assign_s s' ;;
  v <- read (fun c => c.2.1) ;;
  t <- getitem hyperparams "t" ;;
  let v_bias_corr := bias_corr beta1 t v in
  s <- read (fun c => c.2.2) ;;
  t <- getitem hyperparams "t" ;;
  let s_bias_corr := bias_corr beta2 t s in
  p <- read_data ;;
  lr <- getitem hyperparams "lr" ;;
  upd <- lift (ew Rdiv (smul (to_R lr) v_bias_corr)
                       (sadd (tsqrt s_bias_corr) eps)) ;;
  p' <- lift (ew Rminus p upd) ;;
  assign_data p'.

Definition adam : M (store (tensor * tensor)) unit :=
  let '(beta1, beta2, eps) := (0.9, 0.999, 1e-6) in
  loop (adam_body beta1 beta2 eps) ;;
  t <- hp_get "t" ;;
  hp_set "t" (py_add1 t).

(** ** The toy two-dimensional step *)

(** A global variable of the notebook. *)
Definition global (x : string) : M (gmap string pyval) R :=
  fun G =>
    match G !! x with
    | Some v => (inr (to_R v), G)
    | None => (inl (NameError x), G)
    end.

(** Momentum notebook:
<<
def momentum_2d(x1, x2, v1, v2):
    v1 = gamma * v1 + eta * 0.2 * x1
    v2 = gamma * v2 + eta * 4 * x2
    return x1 - v1, x2 - v2, v1, v2
>> *)
Definition momentum_2d (x1 x2 v1 v2 : R) : M (gmap string pyval) (R * R * R * R) :=
  gamma <- global "gamma" ;;
  eta <- global "eta" ;;
  let v1 := gamma * v1 + eta * 0.2 * x1 in
  gamma <- global "gamma" ;;
  eta <- global "eta" ;;
  let v2 := gamma * v2 + eta * 4 * x2 in
  ret (x1 - v1, x2 - v2, v1, v2).

(** Modelled from the spec: the toy trajectory runner ([d2l.train_2d], which
    the notebooks call and which is not among the sources).  Given a step
    function, an iteration count and a start point, it produces the ordered
    sequence of the points [(x1, x2)] visited, the start point first; the
    state of the rule starts at zero. *)
Fixpoint trace_2d (trainer : R -> R -> R -> R -> M (gmap string pyval) (R * R * R * R))
    (n : nat) (x1 x2 s1 s2 : R) : M (gmap string pyval) (list (R * R)) :=
  match n with
  | O => ret []
  | S n' =>
      r <- trainer x1 x2 s1 s2 ;;
      let '(x1', x2', s1', s2') := r in
      rest <- trace_2d trainer n' x1' x2' s1' s2' ;;
      ret ((x1', x2') :: rest)
  end.

Definition train_2d (trainer : R -> R -> R -> R -> M (gmap string pyval) (R * R * R * R))
    (steps : nat) (start : R * R) : M (gmap string pyval) (list (R * R)) :=
  rest <- trace_2d trainer steps start.1 start.2 0 0 ;;
  ret (start :: rest).

(** ** Training runs *)

(** Modelled from the spec: the gradient provider and the training driver
    ([autograd] and [d2l.train_ch7], which are not among the sources).
    Before the call number [k] of the rule the provider stores a new
    gradient [g k i p] in the parameter [p] of index [i]; it may depend on
    the iteration, on the parameter's place and on the parameter itself.
    The driver then calls the rule on the parameters, the states and the
    hyperparameters, and stops at the first exception. *)
Definition backward (g : nat -> ndarray -> tensor) (ps : list ndarray) : list ndarray :=
  imap (fun i p => NDArray (data p) (g i p)) ps.

Fixpoint train {T} (rule : M (store T) unit) (g : nat -> nat -> ndarray -> tensor)
    (k n : nat) : M (store T) unit :=
  match n with
  | O => ret tt
  | S n' =>
      modify (fun st => Store (backward (g k) (params st)) (states st) (hyperparams st)) ;;
      rule ;;
      train rule g (S k) n'
  end.

(** The provider of a constant gradient: every element of every gradient
    is [c], at every iteration. *)
Definition const_grad (c : R) : nat -> nat -> ndarray -> tensor :=
  fun _ _ p => replicate (length (data p)) c.

(** ** The update rules as the specification writes them *)

(** Exponentially weighted moving average: [y_t = gamma y_(t-1) + (1 - gamma) x_t],
    with [y_0 = 0]; [x t] is the sample of step [t]. *)
Definition ewma (gamma y x : R) : R := gamma * y + (1 - gamma) * x.

Fixpoint ewma_at (gamma : R) (x : nat -> R) (t : nat) : R :=
  match t with
  | O => 0
  | S t' => ewma gamma (ewma_at gamma x t') (x t)
  end.

Definition zip_with3 {A B C D} (f : A -> B -> C -> D)
    (la : list A) (lb : list B) (lc : list C) : list D :=
  zip_with (fun a bc => f a bc.1 bc.2) la (zip lb lc).

(** Momentum: [v <- momentum v + lr g], [x <- x - v]. *)
Definition momentum_cell (momentum lr : R) (c : ndarray * tensor) : ndarray * tensor :=
  let v' := zip_with (fun v g => momentum * v + lr * g) c.2 (grad c.1) in
  (NDArray (zip_with (fun x v => x - v) (data c.1) v') (grad c.1), v').

(** Adagrad: [s <- s + g g], [x <- x - lr g / sqrt (s + eps)]. *)
Definition adagrad_cell (eps lr : R) (c : ndarray * tensor) : ndarray * tensor :=
  let s' := zip_with (fun s g => s + g * g) c.2 (grad c.1) in
  (NDArray (zip_with3 (fun x g s => x - lr * g / sqrt (s + eps))
              (data c.1) (grad c.1) s') (grad c.1), s').

(** RMSProp: [s <- gamma s + (1 - gamma) g g], [x <- x - lr g / sqrt (s + eps)]. *)
Definition rmsprop_cell (gamma eps lr : R) (c : ndarray * tensor) : ndarray * tensor :=
  let s' := zip_with (fun s g => ewma gamma s (g * g)) c.2 (grad c.1) in
  (NDArray (zip_with3 (fun x g s => x - lr * g / sqrt (s + eps))
              (data c.1) (grad c.1) s') (grad c.1), s').

(** Adam at time step [t]: [v <- 0.9 v + 0.1 g], [s <- 0.999 s + 0.001 g g],
    [v_hat = v / (1 - 0.9^t)], [s_hat = s / (1 - 0.999^t)],
    [x <- x - lr v_hat / (sqrt s_hat + eps)] with [eps = 1e-6]. *)
Definition adam_v (v g : R) : R := 0.9 * v + 0.1 * g.
Definition adam_s (s g : R) : R := 0.999 * s + 0.001 * g * g.
Definition adam_v_hat (t : Z) (v : R) : R := v / (1 - powerRZ 0.9 t).
Definition adam_s_hat (t : Z) (s : R) : R := s / (1 - powerRZ 0.999 t).
Definition adam_x (lr : R) (t : Z) (x v s : R) : R :=
  x - lr * adam_v_hat t v / (sqrt (adam_s_hat t s) + 1e-6).

Definition adam_cell (lr : R) (t : Z) (c : ndarray * (tensor * tensor))
  : ndarray * (tensor * tensor) :=
  let v' := zip_with adam_v c.2.1 (grad c.1) in
  let s' := zip_with adam_s c.2.2 (grad c.1) in
  (NDArray (zip_with3 (adam_x lr t) (data c.1) v' s') (grad c.1), (v', s')).

(** ** Shapes *)

(** A parameter, its gradient and its state have the same shape. *)
Definition same_shape (c : ndarray * tensor) : Prop :=
  length (data c.1) = length (grad c.1) /\ length c.2 = length (grad c.1).

Definition same_shape2 (c : ndarray * (tensor * tensor)) : Prop :=
  length (data c.1) = length (grad c.1) /\
  length c.2.1 = length (grad c.1) /\ length c.2.2 = length (grad c.1).

Definition well_shaped (st : store tensor) : Prop :=
  Forall same_shape (zip (params st) (states st)).

Definition well_shaped2 (st : store (tensor * tensor)) : Prop :=
  Forall same_shape2 (zip (params st) (states st)).

#[global] Instance same_shape_dec c : Decision (same_shape c).
Proof. unfold same_shape. apply _. Defined.

#[global] Instance same_shape2_dec c : Decision (same_shape2 c).
Proof. unfold same_shape2. apply _. Defined.

#[global] Instance well_shaped_dec st : Decision (well_shaped st).
Proof. unfold well_shaped. apply _. Defined.

#[global] Instance well_shaped2_dec st : Decision (well_shaped2 st).
Proof. unfold well_shaped2. apply _. Defined.

(** ** Validation of hyperparameters, as the specification asks for it *)

(** A dictionary with a decay rate outside [[0, 1)] or a negative learning
    rate.  (The decay rates and the [eps] of [adam], and the [eps] of
    [adagrad] and [rmsprop], are constants of the code.) *)
Definition invalid_hyperparams (hp : gmap string pyval) : Prop :=
  (exists g, hp !! "gamma" = Some g /\ ~ (0 <= to_R g < 1)) \/
  (exists m, hp !! "momentum" = Some m /\ ~ (0 <= to_R m < 1)) \/
  (exists lr, hp !! "lr" = Some lr /\ to_R lr < 0).

(** A rule that rejects invalid hyperparameters before it modifies
    anything. *)
Definition rejects_invalid {S} (rule : M (store S) unit) : Prop :=
  forall st, invalid_hyperparams (hyperparams st) ->
    exists e, rule st = (inl e, st).

(** ** Arguments as the notebooks pass them *)

(** A weight of two elements and a bias, with their gradients, and their
    initial states. *)
Definition example_params : list ndarray :=
  [NDArray [1; 2] [0.5; -1]; NDArray [0] [1]].

Definition example_states : list tensor := init_rmsprop_states 2.

Definition example_adam_states : list (tensor * tensor) := init_adam_states 2.

(** The same parameters with gradients whose elements are all 1. *)
Definition example_params_ones : list ndarray :=
  [NDArray [1; 2] [1; 1]; NDArray [0] [1]].

(** The hyperparameters of the four training cells, in one dictionary. *)
Definition example_hyperparams : gmap string pyval :=
  {["lr" := PyFloat 0.01; "t" := PyInt 1;
    "gamma" := PyFloat 0.9; "momentum" := PyFloat 0.5]}.

(** The globals of the cell that runs [momentum_2d]. *)
Definition example_globals : gmap string pyval :=
  {["eta" := PyFloat 0.4; "gamma" := PyFloat 0.5]}.

(** ** Proof automation *)

(** Lengths of the results of tensor operations. *)
Ltac solve_len :=
  unfold bias_corr, smul, sdiv, sadd, square, tsqrt;
  repeat first [ rewrite length_zip_with | rewrite length_fmap ];
  simpl in *; lia.

(** Runs a loop body on a pair where no check fails. *)
Ltac run_body :=
  unfold bind, ret, read_data, read_grad, read_state, read, getitem;
  repeat first
    [ progress simpl
    | match goal with
      | H : ?d !! ?k = _ |- context [?d !! ?k] => rewrite H
      end
    | progress unfold ew, lift, ret, raise, assign_state, assign_data,
        assign_v, assign_s
    | rewrite decide_True by solve_len ].

(** * The other functions of the notebooks *)

(** ** The toy objective and plain gradient descent *)

(** Momentum, adagrad and rmsprop notebooks:
<<
def f_2d(x1, x2):
    return 0.1 * x1 ** 2 + 2 * x2 ** 2
>> *)
Definition f_2d (x1 x2 : R) : R := 0.1 * x1 ^ 2 + 2 * x2 ^ 2.

(** Momentum notebook:
<<
def gd_2d(x1, x2, s1, s2):
    return (x1 - eta * 0.2 * x1, x2 - eta * 4 * x2, 0, 0)
>> *)
Definition gd_2d (x1 x2 s1 s2 : R) : M (gmap string pyval) (R * R * R * R) :=
  eta1 <- global "eta" ;;
  eta2 <- global "eta" ;;
  ret (x1 - eta1 * 0.2 * x1, x2 - eta2 * 4 * x2, 0, 0).

(** ** The range of floats *)

(** Python raises [OverflowError] where a power of floats, or the
    conversion of an integer to a float, leaves the range of floats, whose
    largest element is about [1.8e308]; the other operations on floats and
    on arrays raise nothing there.  The arithmetic of the model is total.
    What a theorem says on whether a function returns, or on the exception
    it raises, it therefore says for numbers of a size of at most [1e300],
    well inside that range, where Python raises nothing of the kind. *)
Definition float_sized (x : R) : Prop := Rabs x <= 1e300.

(** A number of a dictionary or a global that converts to a float. *)
Definition convertible (v : pyval) : Prop := float_sized (to_R v).

(** A time step [t] for which [0.9 ** t] and [0.999 ** t] are floats, as
    they are for every [t >= 0] that converts to a float. *)
Definition time_step_in_range (t : pyval) : Prop :=
  convertible t /\ float_sized (py_pow 0.9 t) /\ float_sized (py_pow 0.999 t).

(** A coordinate of the toy objective: the squares [(0.2 x) ** 2] and
    [(4 x) ** 2] of its gradients are floats. *)
Definition coordinate_sized (x : R) : Prop := Rabs x <= 1e100.

(** ** The toy steps that call [math.sqrt] *)

(** [math.sqrt] raises [ValueError] below zero, and the division of floats
    raises [ZeroDivisionError] when the divisor is zero.  (The
    [OverflowError] of [g ** 2] for a gradient [g] whose square is not a
    float is outside the model: see [coordinate_sized].) *)
Inductive math_exn :=
| ValueError
| ZeroDivisionError.

(** A computation that may also end with one of these two. *)
Definition MX (St A : Type) : Type := St -> ((exn + math_exn) + A) * St.

Definition retX {St A} (a : A) : MX St A := fun st => (inr a, st).

Definition bindX {St A B} (c : MX St A) (k : A -> MX St B) : MX St B :=
  fun st =>
    match c st with
    | (inl e, st') => (inl e, st')
    | (inr a, st') => k a st'
    end.

(** A computation that raises no arithmetic exception. *)
Definition plain {St A} (c : M St A) : MX St A :=
  fun st =>
    match c st with
    | (inl e, st') => (inl (inl e), st')
    | (inr a, st') => (inr a, st')
    end.

Definition math_sqrt {St} (x : R) : MX St R :=
  fun st =>
    if Rlt_dec x 0 then (inl (inr ValueError), st) else (inr (sqrt x), st).

Definition float_div {St} (a b : R) : MX St R :=
  fun st =>
    if Req_dec_T b 0 then (inl (inr ZeroDivisionError), st) else (inr (a / b), st).

Declare Scope pyx_scope.
Delimit Scope pyx_scope with pyx.
Notation "x <- c ;; k" := (bindX c (fun x => k))
  (at level 20, c at level 99, k at level 200, only parsing) : pyx_scope.

(** adagrad.ipynb:
<<
def adagrad_2d(x1, x2, s1, s2):
    # The first two terms are the independent variable gradients
    g1, g2, eps = 0.2 * x1, 4 * x2, 1e-6
    s1 += g1 ** 2
    s2 += g2 ** 2
    x1 -= eta / math.sqrt(s1 + eps) * g1
    x2 -= eta / math.sqrt(s2 + eps) * g2
    return x1, x2, s1, s2
>> *)
Definition adagrad_2d (x1 x2 s1 s2 : R) : MX (gmap string pyval) (R * R * R * R) :=
  (let '(g1, g2, eps) := (0.2 * x1, 4 * x2, 1e-6) in
   let s1 := s1 + g1 ^ 2 in
   let s2 := s2 + g2 ^ 2 in
   eta <- plain (global "eta") ;;
   r1 <- math_sqrt (s1 + eps) ;;
   q1 <- float_div eta r1 ;;
   let x1 := x1 - q1 * g1 in
   eta <- plain (global "eta") ;;
   r2 <- math_sqrt (s2 + eps) ;;
   q2 <- float_div eta r2 ;;
   let x2 := x2 - q2 * g2 in
   retX (x1, x2, s1, s2))%pyx.

(** rmsprop.ipynb:
<<
def rmsprop_2d(x1, x2, s1, s2):
    g1, g2, eps = 0.2 * x1, 4 * x2, 1e-6
    s1 = gamma * s1 + (1 - gamma) * g1 ** 2
    s2 = gamma * s2 + (1 - gamma) * g2 ** 2
    x1 -= eta / math.sqrt(s1 + eps) * g1
    x2 -= eta / math.sqrt(s2 + eps) * g2
    return x1, x2, s1, s2
>> *)
Definition rmsprop_2d (x1 x2 s1 s2 : R) : MX (gmap string pyval) (R * R * R * R) :=
  (let '(g1, g2, eps) := (0.2 * x1, 4 * x2, 1e-6) in
   gamma <- plain (global "gamma") ;;
   gamma' <- plain (global "gamma") ;;
   let s1 := gamma * s1 + (1 - gamma') * g1 ^ 2 in
   gamma <- plain (global "gamma") ;;
   gamma' <- plain (global "gamma") ;;
   let s2 := gamma * s2 + (1 - gamma') * g2 ^ 2 in
   eta <- plain (global "eta") ;;
   r1 <- math_sqrt (s1 + eps) ;;
   q1 <- float_div eta r1 ;;
   let x1 := x1 - q1 * g1 in
   eta <- plain (global "eta") ;;
   r2 <- math_sqrt (s2 + eps) ;;
   q2 <- float_div eta r2 ;;
   let x2 := x2 - q2 * g2 in
   retX (x1, x2, s1, s2))%pyx.

(** ** A quadratic form that the momentum step scales *)

(** For one coordinate of curvature [h] (the gradient is [h x]), position
    [x] and velocity [v]. *)
Definition momentum_form (h eta gamma x v : R) : R :=
  eta * h * x ^ 2 + (gamma - 1 + eta * h) * x * v + gamma * v ^ 2.

(** What the form, scaled [k] times from the value [q0], allows for a
    position [x]. *)
Definition momentum_bound_at (h eta gamma : R) (k : nat) (x q0 : R) : Prop :=
  (4 * eta * h * gamma - (gamma - 1 + eta * h) ^ 2) * x ^ 2
  <= 4 * gamma * (gamma ^ k * q0).

(** ** Frames *)

(** A parameter with the gradient and the shape of another. *)
Definition same_frame (p p' : ndarray) : Prop :=
  grad p' = grad p /\ length (data p') = length (data p).

Definition same_length (s s' : tensor) : Prop := length s' = length s.

Definition same_length2 (s s' : tensor * tensor) : Prop :=
  length s'.1 = length s.1 /\ length s'.2 = length s.2.

(** A pair of a run with the shapes of the pair [c0] it started from. *)
Definition shaped_as (c0 c : ndarray * tensor) : Prop :=
  length (data c.1) = length (data c0.1) /\ length c.2 = length (data c0.1).

Definition shaped_as2 (c0 c : ndarray * (tensor * tensor)) : Prop :=
  length (data c.1) = length (data c0.1) /\
  length c.2.1 = length (data c0.1) /\ length c.2.2 = length (data c0.1).

(** Two calls that end the same way with the same parameters and states. *)
Definition same_outcome {T} (r r' : (exn + unit) * store T) : Prop :=
  r.1 = r'.1 /\ params r.2 = params r'.2 /\ states r.2 = states r'.2.

(** Every way through a loop body, one decision at a time. *)
Ltac explore_body :=
  unfold bind, read_state, read_grad, read_data, read, lift, ew, getitem,
    assign_state, assign_data, assign_v, assign_s, ret, raise;
  simpl;
  repeat match goal with
    | |- context [decide ?P] => destruct (decide P); simpl
    | |- context [match ?hp !! ?k with _ => _ end] =>
        destruct (hp !! k) eqn:?; simpl
    end.

(** * Properties *)

(** ** Loops *)

Lemma Forall2_diag {A} (R : A -> A -> Prop) (l : list A) :
  (forall x, R x x) -> Forall2 R l l.
Proof. intros H. induction l; constructor; auto. Qed.

Section ForZip.
Context {P S : Type} (body : M (P * S) unit).

Lemma for_zip_length ps ss :
  length (for_zip body ps ss).2.1 = length ps /\
  length (for_zip body ps ss).2.2 = length ss.
Proof.
  revert ss. induction ps as [|p ps IH]; intros [|s ss]; simpl; auto.
  destruct (body (p, s)) as [[e|[]] [p' s']]; simpl; auto.
  specialize (IH ss).
  destruct (for_zip body ps ss) as [r [ps' ss']]; simpl in *.
  destruct IH; auto.
Qed.

(** A loop whose body succeeds on every pair succeeds, and has applied
    the body to every pair. *)
Lemma for_zip_ok (f : P * S -> P * S) ps ss :
  Forall (fun c => body c = (inr tt, f c)) (zip ps ss) ->
  (for_zip body ps ss).1 = inr tt /\
  zip (for_zip body ps ss).2.1 (for_zip body ps ss).2.2 = f <$> zip ps ss.
Proof.
  revert ss. induction ps as [|p ps IH]; intros [|s ss] H; simpl; auto.
  apply Forall_cons in H as [Hc H].
  rewrite Hc. destruct (f (p, s)) as [p' s'] eqn:Hf.
  specialize (IH ss H).
  destruct (for_zip body ps ss) as [r [ps' ss']]; simpl in *.
  destruct IH as [-> ->]. auto.
Qed.

(** What every run of a body preserves, the loop preserves, whether it
    ends normally or by an exception. *)
Lemma for_zip_rel (RP : P -> P -> Prop) (RS : S -> S -> Prop) ps ss :
  (forall p, RP p p) -> (forall s, RS s s) ->
  (forall p s, p ∈ ps -> s ∈ ss ->
     RP p (body (p, s)).2.1 /\ RS s (body (p, s)).2.2) ->
  Forall2 RP ps (for_zip body ps ss).2.1 /\
  Forall2 RS ss (for_zip body ps ss).2.2.
Proof.
  intros HP HS. revert ss.
  induction ps as [|p ps IH]; intros [|s ss] H; simpl;
    try (split; apply Forall2_diag; assumption).
  destruct (H p s) as [Hp Hs]; [left | left |].
  destruct (IH ss) as [IHp IHs].
  { intros p0 s0 ? ?. apply H; by right. }
  destruct (body (p, s)) as [[e|[]] [p' s']]; simpl in *.
  - split; constructor; auto; apply Forall2_diag; assumption.
  - destruct (for_zip body ps ss) as [r [ps' ss']]; simpl in *.
    split; constructor; auto.
Qed.
End ForZip.

(** The pair at a place of two lists that are the image of a zip. *)
Lemma zip_fmap_lookup {P S} (f : P * S -> P * S) (ps ps' : list P) (ss ss' : list S)
    i p s :
  zip ps' ss' = f <$> zip ps ss ->
  ps !! i = Some p -> ss !! i = Some s ->
  ps' !! i = Some (f (p, s)).1 /\ ss' !! i = Some (f (p, s)).2.
Proof.
  intros Hz Hp Hs.
  assert (zip ps' ss' !! i = Some (f (p, s))) as H.
  { rewrite Hz, list_lookup_fmap, lookup_zip_with, Hp. simpl. by rewrite Hs. }
  apply lookup_zip_with_Some in H as (p' & s' & Hf & -> & ->).
  by rewrite Hf.
Qed.

(** ** Tensors *)

Lemma zip_with_smul (a b : R) (x y : tensor) :
  zip_with Rplus (smul a x) (smul b y) = zip_with (fun u w => a * u + b * w) x y.
Proof. unfold smul. by rewrite zip_with_fmap_l, zip_with_fmap_r. Qed.

Lemma zip_with_nested {A B C D E} (f : A -> D -> E) (k : B -> C -> D)
    (la : list A) (lb : list B) (lc : list C) :
  zip_with f la (zip_with k lb lc) = zip_with3 (fun a b c => f a (k b c)) la lb lc.
Proof.
  unfold zip_with3. revert lb lc.
  induction la as [|a la IH]; intros [|b lb] [|c lc]; simpl; auto.
  by rewrite IH.
Qed.

(** ** One pass of a loop body on a well-shaped pair *)

Lemma sgd_momentum_body_ok hp m lr c :
  hp !! "momentum" = Some m -> hp !! "lr" = Some lr ->
  same_shape c ->
  sgd_momentum_body hp c = (inr tt, momentum_cell (to_R m) (to_R lr) c).
Proof.
  intros Hm Hlr [H1 H2]. destruct c as [p v]. unfold sgd_momentum_body.
  run_body. unfold momentum_cell. simpl. by rewrite zip_with_smul.
Qed.

Lemma zip_with_square (f : R -> R -> R) (s g : tensor) :
  zip_with f s (square g) = zip_with (fun s g => f s (g * g)) s g.
Proof. unfold square. by rewrite zip_with_fmap_r. Qed.

Lemma scaled_gradient (lr eps : R) (g s : tensor) :
  zip_with Rdiv (smul lr g) (tsqrt (sadd s eps)) =
  zip_with (fun g s => lr * g / sqrt (s + eps)) g s.
Proof.
  unfold smul, tsqrt, sadd.
  by rewrite zip_with_fmap_l, <- list_fmap_compose, zip_with_fmap_r.
Qed.

Lemma adagrad_body_ok eps hp lr c :
  hp !! "lr" = Some lr ->
  same_shape c ->
  adagrad_body eps hp c = (inr tt, adagrad_cell eps (to_R lr) c).
Proof.
  intros Hlr [H1 H2]. destruct c as [p s]. unfold adagrad_body.
  run_body. unfold adagrad_cell. simpl.
  by rewrite scaled_gradient, zip_with_nested, zip_with_square.
Qed.

Lemma rmsprop_body_ok gamma eps hp lr c :
  hp !! "lr" = Some lr ->
  same_shape c ->
  rmsprop_body gamma eps hp c = (inr tt, rmsprop_cell gamma eps (to_R lr) c).
Proof.
  intros Hlr [H1 H2]. destruct c as [p s]. unfold rmsprop_body.
  run_body. unfold rmsprop_cell, ewma. simpl.
  rewrite scaled_gradient, zip_with_nested.
  unfold smul, square. by rewrite zip_with_fmap_l, !zip_with_fmap_r.
Qed.

Lemma adam_update_simpl (lr eps b1 b2 : R) (v s : tensor) :
  zip_with Rdiv (smul lr (sdiv v b1)) (sadd (tsqrt (sdiv s b2)) eps) =
  zip_with (fun v s => lr * (v / b1) / (sqrt (s / b2) + eps)) v s.
Proof.
  unfold smul, tsqrt, sadd, sdiv.
  by rewrite <- !list_fmap_compose, zip_with_fmap_l, zip_with_fmap_r.
Qed.

Lemma adam_body_ok hp lr t c :
  hp !! "lr" = Some lr -> hp !! "t" = Some (PyInt t) ->
  same_shape2 c ->
  adam_body 0.9 0.999 1e-6 hp c = (inr tt, adam_cell (to_R lr) t c).
Proof.
  intros Hlr Ht (H1 & H2 & H3). destruct c as [p [v s]]. unfold adam_body.
  run_body. unfold adam_cell, bias_corr. simpl.
  rewrite adam_update_simpl, zip_with_nested.
  unfold smul, square. rewrite !zip_with_fmap_l, !zip_with_fmap_r.
  assert (zip_with (fun x z => 0.9 * x + (1 - 0.9) * z) v (grad p)
          = zip_with adam_v v (grad p)) as ->.
  { apply zip_with_ext; auto. intros. unfold adam_v. lra. }
  assert (zip_with (fun x z => 0.999 * x + (1 - 0.999) * (z * z)) s (grad p)
          = zip_with adam_s s (grad p)) as ->.
  { apply zip_with_ext; auto. intros. unfold adam_s. lra. }
  reflexivity.
Qed.

(** ** The loop of a rule *)

Section Loop.
Context {S : Type} (body : gmap string pyval -> M (ndarray * S) unit).

Lemma loop_hyperparams st : hyperparams (loop body st).2 = hyperparams st.
Proof.
  unfold loop.
  by destruct (for_zip (body (hyperparams st)) (params st) (states st))
    as [r [ps ss]].
Qed.

Lemma loop_length st :
  length (params (loop body st).2) = length (params st) /\
  length (states (loop body st).2) = length (states st).
Proof.
  unfold loop.
  pose proof (for_zip_length (body (hyperparams st)) (params st) (states st)) as H.
  by destruct (for_zip (body (hyperparams st)) (params st) (states st))
    as [r [ps ss]].
Qed.

Lemma loop_ok (f : ndarray * S -> ndarray * S) st :
  Forall (fun c => body (hyperparams st) c = (inr tt, f c))
    (zip (params st) (states st)) ->
  (loop body st).1 = inr tt /\
  zip (params (loop body st).2) (states (loop body st).2)
    = f <$> zip (params st) (states st).
Proof.
  intros H. unfold loop.
  pose proof (for_zip_ok (body (hyperparams st)) f _ _ H) as H'.
  by destruct (for_zip (body (hyperparams st)) (params st) (states st))
    as [r [ps ss]].
Qed.

Lemma loop_rel (RP : ndarray -> ndarray -> Prop) (RS : S -> S -> Prop) st :
  (forall p, RP p p) -> (forall s, RS s s) ->
  (forall p s, p ∈ params st -> s ∈ states st ->
     RP p (body (hyperparams st) (p, s)).2.1 /\
     RS s (body (hyperparams st) (p, s)).2.2) ->
  Forall2 RP (params st) (params (loop body st).2) /\
  Forall2 RS (states st) (states (loop body st).2).
Proof.
  intros HP HS H. unfold loop.
  pose proof (for_zip_rel (body (hyperparams st)) RP RS _ _ HP HS H) as H'.
  by destruct (for_zip (body (hyperparams st)) (params st) (states st))
    as [r [ps ss]].
Qed.
End Loop.

(** ** The rules on well-shaped arguments *)

Lemma sgd_momentum_ok st m lr :
  hyperparams st !! "momentum" = Some m -> hyperparams st !! "lr" = Some lr ->
  well_shaped st ->
  (sgd_momentum st).1 = inr tt /\
  zip (params (sgd_momentum st).2) (states (sgd_momentum st).2)
    = momentum_cell (to_R m) (to_R lr) <$> zip (params st) (states st).
Proof.
  intros Hm Hlr Hs. apply loop_ok.
  eapply Forall_impl; [exact Hs|]. intros c Hc.
  by apply sgd_momentum_body_ok.
Qed.

Lemma adagrad_ok st lr :
  hyperparams st !! "lr" = Some lr ->
  well_shaped st ->
  (adagrad st).1 = inr tt /\
  zip (params (adagrad st).2) (states (adagrad st).2)
    = adagrad_cell 1e-6 (to_R lr) <$> zip (params st) (states st).
Proof.
  intros Hlr Hs. apply loop_ok.
  eapply Forall_impl; [exact Hs|]. intros c Hc.
  by apply adagrad_body_ok.
Qed.

Lemma rmsprop_unfold st gamma :
  hyperparams st !! "gamma" = Some gamma ->
  rmsprop st = loop (rmsprop_body (to_R gamma) 1e-6) st.
Proof. intros H. unfold rmsprop, bind, hp_get, getitem. by rewrite H. Qed.

Lemma rmsprop_ok st gamma lr :
  hyperparams st !! "gamma" = Some gamma -> hyperparams st !! "lr" = Some lr ->
  well_shaped st ->
  (rmsprop st).1 = inr tt /\
  zip (params (rmsprop st).2) (states (rmsprop st).2)
    = rmsprop_cell (to_R gamma) 1e-6 (to_R lr) <$> zip (params st) (states st).
Proof.
  intros Hg Hlr Hs. rewrite (rmsprop_unfold _ _ Hg). apply loop_ok.
  eapply Forall_impl; [exact Hs|]. intros c Hc.
  by apply rmsprop_body_ok.
Qed.

Lemma adam_unfold st :
  adam st =
    let st1 := (loop (adam_body 0.9 0.999 1e-6) st).2 in
    match (loop (adam_body 0.9 0.999 1e-6) st).1 with
    | inl e => (inl e, st1)
    | inr _ =>
        match hyperparams st !! "t" with
        | None => (inl (KeyError "t"), st1)
        | Some t =>
            (inr tt, Store (params st1) (states st1)
                       (<["t" := py_add1 t]> (hyperparams st)))
        end
    end.
Proof.
  unfold adam, bind, hp_get, hp_set, getitem, modify. simpl.
  pose proof (loop_hyperparams (adam_body 0.9 0.999 1e-6) st) as Hh.
  destruct (loop (adam_body 0.9 0.999 1e-6) st) as [[e|[]] st1]; simpl in *; auto.
  rewrite Hh. destruct (hyperparams st !! "t"); unfold ret, raise; simpl; auto.
  by rewrite Hh.
Qed.

Lemma adam_ok st lr t :
  hyperparams st !! "lr" = Some lr -> hyperparams st !! "t" = Some (PyInt t) ->
  well_shaped2 st ->
  (adam st).1 = inr tt /\
  zip (params (adam st).2) (states (adam st).2)
    = adam_cell (to_R lr) t <$> zip (params st) (states st) /\
  hyperparams (adam st).2 = <["t" := PyInt (t + 1)]> (hyperparams st).
Proof.
  intros Hlr Ht Hs. rewrite adam_unfold.
  destruct (loop_ok (adam_body 0.9 0.999 1e-6) (adam_cell (to_R lr) t) st)
    as [Hr Hz].
  { eapply Forall_impl; [exact Hs|]. intros c Hc. by apply adam_body_ok. }
  simpl. rewrite Hr, Ht. simpl. auto.
Qed.

(** ** The hyperparameter dictionary *)

Lemma sgd_momentum_hyperparams st :
  hyperparams (sgd_momentum st).2 = hyperparams st.
Proof. apply loop_hyperparams. Qed.

Lemma adagrad_hyperparams st : hyperparams (adagrad st).2 = hyperparams st.
Proof. apply loop_hyperparams. Qed.

Lemma rmsprop_hyperparams st : hyperparams (rmsprop st).2 = hyperparams st.
Proof.
  destruct (hyperparams st !! "gamma") as [gamma|] eqn:Hg.
  - rewrite (rmsprop_unfold _ _ Hg). apply loop_hyperparams.
  - unfold rmsprop, bind, hp_get, getitem. by rewrite Hg.
Qed.

Lemma py_add1_neq t : py_add1 t <> t.
Proof.
  destruct t as [z|r]; simpl; intros H; inversion H as [H']; [lia | lra].
Qed.

(** C10.  Momentum, Adagrad and RMSProp leave the hyperparameter dictionary
    as it was, whether they return or raise.  Adam, when it returns, has
    replaced the entry ['t'] by its value plus one, a different value, and
    has changed no other entry; when it raises, the dictionary is as it
    was.  And Adam does return, with ['t'] incremented, on arguments of
    matching shapes whose dictionary holds ['lr'] and an integer
    ['t'] of at least 1. *)
Theorem hyperparams_frame :
  (forall st, hyperparams (sgd_momentum st).2 = hyperparams st) /\
  (forall st, hyperparams (adagrad st).2 = hyperparams st) /\
  (forall st, hyperparams (rmsprop st).2 = hyperparams st) /\
  (forall st,
     match (adam st).1 with
     | inr _ =>
         exists t, hyperparams st !! "t" = Some t /\
           hyperparams (adam st).2 = <["t" := py_add1 t]> (hyperparams st) /\
           to_R (py_add1 t) = to_R t + 1 /\
           hyperparams (adam st).2 <> hyperparams st /\
           forall k, k <> "t" -> hyperparams (adam st).2 !! k = hyperparams st !! k
     | inl _ => hyperparams (adam st).2 = hyperparams st
     end) /\
  (forall st lr t,
     hyperparams st !! "lr" = Some lr ->
     hyperparams st !! "t" = Some (PyInt t) -> (1 <= t)%Z ->
     well_shaped2 st ->
     (adam st).1 = inr tt /\
     hyperparams (adam st).2 !! "t" = Some (PyInt (t + 1)) /\
     hyperparams (adam st).2 = <["t" := PyInt (t + 1)]> (hyperparams st)).
Proof.
  split; [exact sgd_momentum_hyperparams|].
  split; [exact adagrad_hyperparams|].
  split; [exact rmsprop_hyperparams|].
  split.
  - intros st. rewrite adam_unfold. simpl.
    pose proof (loop_hyperparams (adam_body 0.9 0.999 1e-6) st) as Hh.
    destruct (loop (adam_body 0.9 0.999 1e-6) st) as [[e|[]] st1]; simpl in *; auto.
    destruct (hyperparams st !! "t") as [t|] eqn:Ht; simpl; auto.
    exists t. repeat split; auto.
    + destruct t; simpl; [rewrite plus_IZR|]; lra.
    + intros H. apply (f_equal (fun m => m !! "t")) in H.
      rewrite lookup_insert_eq, Ht in H. inversion H as [H'].
      by apply py_add1_neq in H'.
    + intros k Hk. by rewrite lookup_insert_ne.
  - intros st lr t Hlr Ht _ Hs.
    destruct (adam_ok st lr t Hlr Ht Hs) as (Hr & _ & Hh).
    split; [exact Hr|]. split; [|exact Hh].
    by rewrite Hh, lookup_insert_eq.
Qed.

(** ** Momentum *)

Lemma zip_with_const_l {A B C} (h : B -> C) (la : list A) (lb : list B) :
  length la = length lb -> zip_with (fun _ b => h b) la lb = h <$> lb.
Proof.
  revert lb. induction la as [|a la IH]; intros [|b lb] H; simpl in *;
    try discriminate; auto.
  f_equal. apply IH. lia.
Qed.

(** C6.  With momentum hyperparameter 0, [sgd_momentum] replaces every
    parameter [x] by [x - lr g] and every velocity by [lr g], whatever the
    velocity was before. *)
Theorem momentum_zero_is_gradient_descent (st : store tensor) (m lr : pyval) :
  hyperparams st !! "momentum" = Some m -> to_R m = 0 ->
  hyperparams st !! "lr" = Some lr ->
  well_shaped st ->
  (sgd_momentum st).1 = inr tt /\
  forall i p v,
    params st !! i = Some p -> states st !! i = Some v ->
    params (sgd_momentum st).2 !! i
      = Some (NDArray (zip_with (fun x g => x - to_R lr * g) (data p) (grad p))
                (grad p)) /\
    states (sgd_momentum st).2 !! i = Some ((fun g => to_R lr * g) <$> grad p).
Proof.
  intros Hm Hm0 Hlr Hs.
  destruct (sgd_momentum_ok st m lr Hm Hlr Hs) as [Hr Hz].
  split; [exact Hr|]. intros i p v Hp Hv.
  destruct (zip_fmap_lookup _ _ _ _ _ i p v Hz Hp Hv) as [H1 H2].
  rewrite H1, H2. clear H1 H2.
  assert (same_shape (p, v)) as [_ Hlen].
  { eapply Forall_lookup_1; [exact Hs|].
    rewrite lookup_zip_with, Hp. simpl. by rewrite Hv. }
  simpl in Hlen. unfold momentum_cell. simpl. rewrite Hm0.
  assert (zip_with (fun v0 g => 0 * v0 + to_R lr * g) v (grad p)
          = (fun g => to_R lr * g) <$> grad p) as ->.
  { rewrite <- (zip_with_const_l _ v (grad p) Hlen).
    apply zip_with_ext; auto. intros. lra. }
  by rewrite zip_with_fmap_r.
Qed.

(** [momentum_2d] where the globals [eta] and [gamma] are defined. *)
Lemma momentum_2d_run (x1 x2 v1 v2 : R) (eta gamma : pyval) (G : gmap string pyval) :
  G !! "eta" = Some eta -> G !! "gamma" = Some gamma ->
  momentum_2d x1 x2 v1 v2 G =
    (inr (x1 - (to_R gamma * v1 + to_R eta * 0.2 * x1),
          x2 - (to_R gamma * v2 + to_R eta * 4 * x2),
          to_R gamma * v1 + to_R eta * 0.2 * x1,
          to_R gamma * v2 + to_R eta * 4 * x2), G).
Proof.
  intros He Hg. unfold momentum_2d, bind, global, ret.
  repeat (rewrite ?Hg, ?He; simpl). reflexivity.
Qed.

(** C9.  [momentum_2d] returns the values that [sgd_momentum] writes when
    it is run on the parameter [(x1, x2)] with the gradient
    [(0.2 x1, 4 x2)] of [0.1 x1^2 + 2 x2^2], the velocity [(v1, v2)], the
    learning rate [eta] and the momentum [gamma]. *)
Theorem momentum_2d_refines_sgd_momentum (x1 x2 v1 v2 : R) (eta gamma : pyval)
    (G hp : gmap string pyval) :
  G !! "eta" = Some eta -> G !! "gamma" = Some gamma ->
  hp !! "lr" = Some eta -> hp !! "momentum" = Some gamma ->
  exists x1' x2' v1' v2',
    momentum_2d x1 x2 v1 v2 G = (inr (x1', x2', v1', v2'), G) /\
    sgd_momentum (Store [NDArray [x1; x2] [0.2 * x1; 4 * x2]] [[v1; v2]] hp)
      = (inr tt,
         Store [NDArray [x1'; x2'] [0.2 * x1; 4 * x2]] [[v1'; v2']] hp).
Proof.
  intros He Hg Hlr Hm.
  eexists _, _, _, _. split.
  - by apply momentum_2d_run.
  - unfold sgd_momentum, loop. simpl.
    rewrite (sgd_momentum_body_ok hp gamma eta); auto; [|by split].
    unfold momentum_cell. simpl. by rewrite <- !Rmult_assoc.
Qed.

(** ** The rules at work *)

(** One step of [momentum_2d] from the start point of the notebook. *)
Example momentum_2d_first_step :
  momentum_2d (-5) (-2) 0 0 example_globals
  = (inr (-4.6, 1.2, -0.4, -3.2), example_globals).
Proof.
  rewrite (momentum_2d_run _ _ _ _ (PyFloat 0.4) (PyFloat 0.5)) by reflexivity.
  simpl. do 2 f_equal.
  repeat match goal with |- (_, _) = (_, _) => apply f_equal2 end; lra.
Qed.

(** Without the global [eta] the step raises [NameError]. *)
Example momentum_2d_without_eta :
  momentum_2d (-5) (-2) 0 0 {["gamma" := PyFloat 0.5]}
  = (inl (NameError "eta"), {["gamma" := PyFloat 0.5]}).
Proof. reflexivity. Qed.

(** [rmsprop] reads ['gamma'] before its loop: without it nothing is
    written. *)
Example rmsprop_without_gamma :
  rmsprop (Store example_params example_states {["lr" := PyFloat 0.01]})
  = (inl (KeyError "gamma"),
     Store example_params example_states {["lr" := PyFloat 0.01]}).
Proof. reflexivity. Qed.

(** [adam] reads ['t'] after it has written [v] and [s]: without it the
    first state is rewritten, the first parameter and all that follows are
    not. *)
Example adam_without_t :
  exists v s,
    adam (Store [NDArray [3] [1]; NDArray [4] [1]] [([0], [0]); ([0], [0])]
            {["lr" := PyFloat 0.01]})
    = (inl (KeyError "t"),
       Store [NDArray [3] [1]; NDArray [4] [1]] [([v], [s]); ([0], [0])]
         {["lr" := PyFloat 0.01]})
    /\ v = 0.1 /\ s = 0.001.
Proof.
  eexists _, _. split; [reflexivity|]. split; lra.
Qed.

(** [zip] stops at the shorter list: a parameter without a state is left
    as it is. *)
Example adagrad_unpaired_parameter :
  params (adagrad (Store [NDArray [1] [0]; NDArray [5] [1]] [[0]]
                     {["lr" := PyFloat 0.1]})).2 !! 1%nat
  = Some (NDArray [5] [1]).
Proof. reflexivity. Qed.

(** ** Adam *)

Lemma pow_lt_1 (x : R) (n : nat) : 0 <= x < 1 -> (0 < n)%nat -> 0 <= x ^ n < 1.
Proof.
  intros Hx Hn. induction n as [|n IH]; [lia|].
  destruct n as [|n].
  - simpl. lra.
  - assert (0 <= x ^ S n < 1) as H by (apply IH; lia).
    change (x ^ S (S n)) with (x * x ^ S n). nra.
Qed.

Lemma powerRZ_lt_1 (x : R) (t : Z) : 0 <= x < 1 -> (1 <= t)%Z -> 0 <= powerRZ x t < 1.
Proof.
  intros Hx Ht. destruct t as [|p|p]; try lia.
  simpl. apply pow_lt_1; auto. lia.
Qed.

(** C1.  Called with a learning rate and an integer time step [t >= 1],
    [adam] returns normally; it has replaced every state pair [(v, s)] by
    [v' = 0.9 v + 0.1 g] and [s' = 0.999 s + 0.001 g g], and every
    parameter [x] by [x - lr v_hat / (sqrt s_hat + 1e-6)], where
    [v_hat = v' / (1 - 0.9^t)] and [s_hat = s' / (1 - 0.999^t)]; both
    divisors are positive; and the entry ['t'] is [t + 1], however many
    parameters there are. *)
Theorem adam_update (st : store (tensor * tensor)) (lr : pyval) (t : Z) :
  hyperparams st !! "lr" = Some lr ->
  hyperparams st !! "t" = Some (PyInt t) ->
  (1 <= t)%Z ->
  well_shaped2 st ->
  (adam st).1 = inr tt /\
  (forall i p v s,
     params st !! i = Some p -> states st !! i = Some (v, s) ->
     let v' := zip_with (fun v g => 0.9 * v + 0.1 * g) v (grad p) in
     let s' := zip_with (fun s g => 0.999 * s + 0.001 * g * g) s (grad p) in
     states (adam st).2 !! i = Some (v', s') /\
     params (adam st).2 !! i
       = Some (NDArray
                 (zip_with3
                    (fun x v s =>
                       x - to_R lr * (v / (1 - powerRZ 0.9 t))
                           / (sqrt (s / (1 - powerRZ 0.999 t)) + 1e-6))
                    (data p) v' s')
                 (grad p))) /\
  0 < 1 - powerRZ 0.9 t /\ 0 < 1 - powerRZ 0.999 t /\
  hyperparams (adam st).2 = <["t" := PyInt (t + 1)]> (hyperparams st).
Proof.
  intros Hlr Ht Ht1 Hs.
  destruct (adam_ok st lr t Hlr Ht Hs) as (Hr & Hz & Hh).
  split; [exact Hr|]. split.
  - intros i p v s Hp Hv.
    destruct (zip_fmap_lookup _ _ _ _ _ i p (v, s) Hz Hp Hv) as [H1 H2].
    rewrite H1, H2. split; reflexivity.
  - assert (0 <= powerRZ 0.9 t < 1) as H1 by (apply powerRZ_lt_1; [lra | lia]).
    assert (0 <= powerRZ 0.999 t < 1) as H2 by (apply powerRZ_lt_1; [lra | lia]).
    repeat split; [lra | lra | exact Hh].
Qed.

Lemma zip_with3_replicate {A B C D} (f : A -> B -> C -> D) (la : list A) b c :
  zip_with3 f la (replicate (length la) b) (replicate (length la) c)
  = (fun a => f a b c) <$> la.
Proof.
  unfold zip_with3. rewrite zip_with_replicate.
  induction la as [|a la IH]; simpl; auto. by rewrite IH.
Qed.

(** C7.  One call of [adam] at [t = 1] on zero states and gradients whose
    elements are all 1: [v] becomes 0.1 and [s] becomes 0.001 everywhere,
    their bias-corrected values are 1, every parameter element moves by
    [lr / (1 + 1e-6)], which differs from [lr] by at most [1e-6 |lr|]. *)
Theorem adam_first_step (st : store (tensor * tensor)) (lr : pyval) :
  hyperparams st !! "lr" = Some lr ->
  hyperparams st !! "t" = Some (PyInt 1) ->
  Forall (fun c : ndarray * (tensor * tensor) =>
            grad c.1 = replicate (length (data c.1)) 1 /\
            c.2 = (replicate (length (data c.1)) 0, replicate (length (data c.1)) 0))
    (zip (params st) (states st)) ->
  (adam st).1 = inr tt /\
  (forall i p vs,
     params st !! i = Some p -> states st !! i = Some vs ->
     let n := length (data p) in
     states (adam st).2 !! i = Some (replicate n 0.1, replicate n 0.001) /\
     bias_corr 0.9 (PyInt 1) (replicate n 0.1) = replicate n 1 /\
     bias_corr 0.999 (PyInt 1) (replicate n 0.001) = replicate n 1 /\
     params (adam st).2 !! i
       = Some (NDArray ((fun x => x - to_R lr * 1 / (1 + 1e-6)) <$> data p) (grad p))) /\
  Rabs (to_R lr * 1 / (1 + 1e-6) - to_R lr) <= 1e-6 * Rabs (to_R lr).
Proof.
  intros Hlr Ht Hc.
  assert (well_shaped2 st) as Hs.
  { eapply Forall_impl; [exact Hc|]. intros [p [v s]] [Hg Hvs]. simpl in *.
    inversion Hvs; subst. unfold same_shape2; simpl.
    rewrite Hg, !length_replicate. auto. }
  destruct (adam_ok st lr 1 Hlr Ht Hs) as (Hr & Hz & Hh).
  split; [exact Hr|]. split.
  - intros i p [v s] Hp Hv n.
    destruct (zip_fmap_lookup _ _ _ _ _ i p (v, s) Hz Hp Hv) as [H1 H2].
    rewrite H1, H2. clear H1 H2.
    assert (grad p = replicate n 1 /\ (v, s) = (replicate n 0, replicate n 0))
      as [Hg Hvs].
    { eapply (Forall_lookup_1 _ _ i (p, (v, s))) in Hc; [exact Hc|].
      rewrite lookup_zip_with, Hp. simpl. by rewrite Hv. }
    inversion Hvs; subst v s.
    unfold adam_cell, bias_corr, sdiv. simpl. rewrite Hg.
    rewrite !zip_with_replicate, !fmap_replicate.
    assert (adam_v 0 1 = 0.1) as -> by (unfold adam_v; lra).
    assert (adam_s 0 1 = 0.001) as -> by (unfold adam_s; lra).
    assert (0.1 / (1 - 0.9 * 1) = 1) as -> by lra.
    assert (0.001 / (1 - 0.999 * 1) = 1) as -> by lra.
    repeat split.
    subst n. rewrite zip_with3_replicate. do 2 f_equal.
    apply list_fmap_ext. intros _ x _.
    unfold adam_x, adam_v_hat, adam_s_hat. simpl.
    assert (0.1 / (1 - 0.9 * 1) = 1) as -> by lra.
    assert (0.001 / (1 - 0.999 * 1) = 1) as -> by lra.
    by rewrite sqrt_1.
  - assert (to_R lr * 1 / (1 + 1e-6) - to_R lr = - (1e-6 / (1 + 1e-6)) * to_R lr)
      as -> by (field; lra).
    assert (0 < / (1 + 1e-6) <= 1) as Hi.
    { split; [apply Rinv_0_lt_compat; lra|].
      rewrite <- Rinv_1. apply Rinv_le_contravar; lra. }
    rewrite Rabs_mult, Rabs_Ropp, (Rabs_right (1e-6 / (1 + 1e-6))).
    + apply Rmult_le_compat_r; [apply Rabs_pos|]. unfold Rdiv. nra.
    + unfold Rdiv. nra.
Qed.

(** ** No rule validates its hyperparameters *)

Lemma for_zip_succeeds {P S} (body : M (P * S) unit) ps ss :
  Forall (fun c => (body c).1 = inr tt) (zip ps ss) ->
  (for_zip body ps ss).1 = inr tt.
Proof.
  intros H. apply (for_zip_ok body (fun c => (body c).2)).
  eapply Forall_impl; [exact H|]. intros c Hc. simpl in Hc.
  destruct (body c) as [r c']. simpl in *. by subst.
Qed.

Lemma adam_body_succeeds b1 b2 eps hp lr t c :
  hp !! "lr" = Some lr -> hp !! "t" = Some t ->
  same_shape2 c ->
  (adam_body b1 b2 eps hp c).1 = inr tt.
Proof.
  intros Hlr Ht (H1 & H2 & H3). destruct c as [p [v s]]. unfold adam_body.
  run_body. reflexivity.
Qed.

Lemma adam_succeeds st lr t :
  hyperparams st !! "lr" = Some lr -> hyperparams st !! "t" = Some t ->
  well_shaped2 st ->
  (adam st).1 = inr tt.
Proof.
  intros Hlr Ht Hs. rewrite adam_unfold. simpl.
  assert ((loop (adam_body 0.9 0.999 1e-6) st).1 = inr tt) as ->.
  { unfold loop.
    pose proof (for_zip_succeeds (adam_body 0.9 0.999 1e-6 (hyperparams st))
                  (params st) (states st)) as H.
    destruct (for_zip _ (params st) (states st)) as [r [ps ss]]. simpl in *.
    apply H. eapply Forall_impl; [exact Hs|]. intros c Hc.
    by eapply adam_body_succeeds. }
  by rewrite Ht.
Qed.

(** C3 as the specification states it does not hold: no rule rejects
    invalid hyperparameters.  With a decay rate of -1 or 2 and a learning
    rate of -1 each rule returns normally. *)
Lemma no_rule_rejects_invalid_hyperparams :
  ~ rejects_invalid rmsprop /\ ~ rejects_invalid sgd_momentum /\
  ~ rejects_invalid adagrad /\ ~ rejects_invalid adam.
Proof.
  repeat split; intros H.
  - set (st := Store [NDArray [1] [1]] [[0]]
                 {["gamma" := PyInt (-1); "lr" := PyInt (-1)]}).
    destruct (H st) as [e He].
    { left. exists (PyInt (-1)). split; [done|]. simpl. lra. }
    destruct (rmsprop_ok st (PyInt (-1)) (PyInt (-1))) as [Hr _];
      [done | done | repeat constructor |].
    rewrite He in Hr. discriminate.
  - set (st := Store [NDArray [1] [1]] [[0]]
                 {["momentum" := PyInt 2; "lr" := PyInt (-1)]}).
    destruct (H st) as [e He].
    { right; left. exists (PyInt 2). split; [done|]. simpl. lra. }
    destruct (sgd_momentum_ok st (PyInt 2) (PyInt (-1))) as [Hr _];
      [done | done | repeat constructor |].
    rewrite He in Hr. discriminate.
  - set (st := Store [NDArray [1] [1]] [[0]] {["lr" := PyInt (-1)]}).
    destruct (H st) as [e He].
    { right; right. exists (PyInt (-1)). split; [done|]. simpl. lra. }
    destruct (adagrad_ok st (PyInt (-1))) as [Hr _];
      [done | repeat constructor |].
    rewrite He in Hr. discriminate.
  - set (st := Store [NDArray [1] [1]] [([0], [0])]
                 {["lr" := PyInt (-1); "t" := PyInt 1]}).
    destruct (H st) as [e He].
    { right; right. exists (PyInt (-1)). split; [done|]. simpl. lra. }
    assert ((adam st).1 = inr tt) as Hr.
    { apply (adam_succeeds st (PyInt (-1)) (PyInt 1));
        [done | done | repeat constructor]. }
    rewrite He in Hr. discriminate.
Qed.

(** C3, amended.  The rules validate nothing: whatever numbers within
    the range of floats the dictionary holds for the momentum, the decay
    rate, the learning rate and the time step, also a decay rate outside
    [[0, 1)] or a negative learning rate, each rule that finds the keys it
    reads returns normally on arguments of matching shapes. *)
Theorem rules_never_fail (ps : list ndarray) (hp : gmap string pyval) :
  (forall ss momentum lr,
     hp !! "momentum" = Some momentum -> hp !! "lr" = Some lr ->
     convertible momentum -> convertible lr ->
     well_shaped (Store ps ss hp) ->
     (sgd_momentum (Store ps ss hp)).1 = inr tt) /\
  (forall ss lr,
     hp !! "lr" = Some lr -> convertible lr ->
     well_shaped (Store ps ss hp) ->
     (adagrad (Store ps ss hp)).1 = inr tt) /\
  (forall ss gamma lr,
     hp !! "gamma" = Some gamma -> hp !! "lr" = Some lr ->
     convertible gamma -> convertible lr ->
     well_shaped (Store ps ss hp) ->
     (rmsprop (Store ps ss hp)).1 = inr tt) /\
  (forall vs lr t,
     hp !! "lr" = Some lr -> hp !! "t" = Some t ->
     convertible lr -> time_step_in_range t ->
     well_shaped2 (Store ps vs hp) ->
     (adam (Store ps vs hp)).1 = inr tt).
Proof.
  repeat split.
  - intros ss momentum lr Hm Hlr _ _ Hs. by apply (sgd_momentum_ok _ momentum lr).
  - intros ss lr Hlr _ Hs. by apply (adagrad_ok _ lr).
  - intros ss gamma lr Hg Hlr _ _ Hs. by apply (rmsprop_ok _ gamma lr).
  - intros vs lr t Hlr Ht _ _ Hs. by apply (adam_succeeds _ lr t).
Qed.

(** ** The accumulator of Adagrad *)

Lemma accumulate_le (s g : tensor) :
  length s = length g -> Forall2 Rle s (zip_with Rplus s (square g)).
Proof.
  revert g. induction s as [|x s IH]; intros [|y g] H; simpl in *;
    try discriminate; constructor.
  - nra.
  - apply IH. lia.
Qed.

Lemma adagrad_body_monotone eps hp p s :
  Forall2 Rle s (adagrad_body eps hp (p, s)).2.2.
Proof.
  assert (Forall2 Rle s s) as Hrefl by (apply Forall2_diag; intros; lra).
  unfold adagrad_body, bind, read_state, read_grad, read_data, read, lift, ew,
    getitem, assign_state, assign_data, ret, raise.
  simpl. repeat (case_decide; simpl); auto.
  all: destruct (hp !! "lr"); simpl; repeat (case_decide; simpl); auto.
  all: apply accumulate_le; unfold square in *; rewrite length_fmap in *; auto.
Qed.

Lemma Forall2_Rle_trans (a b c : list (list R)) :
  Forall2 (Forall2 Rle) a b -> Forall2 (Forall2 Rle) b c ->
  Forall2 (Forall2 Rle) a c.
Proof.
  apply Forall2_trans. intros x y z. apply Forall2_trans. intros; lra.
Qed.

Lemma adagrad_monotone st :
  Forall2 (Forall2 Rle) (states st) (states (adagrad st).2).
Proof.
  apply (loop_rel (adagrad_body 1e-6) (fun _ _ => True) (Forall2 Rle)); auto.
  - intros s. apply Forall2_diag. intros; lra.
  - intros p s _ _. split; auto. apply adagrad_body_monotone.
Qed.

Lemma train_unfold {T} (rule : M (store T) unit) g k n st :
  train rule g k (S n) st =
    let st1 := Store (backward (g k) (params st)) (states st) (hyperparams st) in
    match (rule st1).1 with
    | inl e => (inl e, (rule st1).2)
    | inr _ => train rule g (S k) n (rule st1).2
    end.
Proof.
  simpl. unfold bind, modify. simpl.
  by destruct (rule _) as [[e|[]] st2].
Qed.

(** C4.  The accumulator of Adagrad never decreases: after a call of
    [adagrad], and after any number of calls on any gradients, every
    element of every state is at least what it was. *)
Theorem adagrad_accumulator_monotone :
  (forall st, Forall2 (Forall2 Rle) (states st) (states (adagrad st).2)) /\
  (forall g k n st,
     Forall2 (Forall2 Rle) (states st) (states (train adagrad g k n st).2)).
Proof.
  split; [exact adagrad_monotone|].
  intros g k n. revert k. induction n as [|n IH]; intros k st.
  - simpl. apply Forall2_diag. intros s. apply Forall2_diag. intros; lra.
  - rewrite train_unfold. cbv zeta.
    set (st1 := Store (backward (g k) (params st)) (states st) (hyperparams st)).
    pose proof (adagrad_monotone st1) as H1. simpl in H1.
    destruct (adagrad st1).1; auto.
    eapply Forall2_Rle_trans; [exact H1|]. apply IH.
Qed.

(** ** Training runs *)

Lemma Forall_zip_backward {T} (J J' : ndarray * T -> Prop) gk ps (ss : list T) :
  (forall i p s, J (p, s) -> J' (NDArray (data p) (gk i p), s)) ->
  Forall J (zip ps ss) -> Forall J' (zip (backward gk ps) ss).
Proof.
  intros HJ H. apply Forall_lookup. intros i [p' s] Hi.
  apply lookup_zip_with_Some in Hi as (p'' & s' & Heq & Hp & Hs).
  inversion Heq; subst p'' s'. clear Heq.
  unfold backward in Hp. rewrite list_lookup_imap in Hp.
  destruct (ps !! i) as [p|] eqn:Hpi; simpl in Hp; [|discriminate].
  inversion Hp; subst p'. apply HJ.
  eapply Forall_lookup_1; [exact H|].
  rewrite lookup_zip_with, Hpi. simpl. by rewrite Hs.
Qed.

(** A run of a rule that applies [f] to every pair, when the provider
    re-establishes what the rule needs: [J m] holds of the pairs after [m]
    calls, [J' m] after the provider has stored the next gradients. *)
Lemma train_cells {T} (rule : M (store T) unit) (f : ndarray * T -> ndarray * T)
    g (Pre : gmap string pyval -> Prop) (J J' : nat -> ndarray * T -> Prop) :
  (forall st, hyperparams (rule st).2 = hyperparams st) ->
  (forall st m, Pre (hyperparams st) ->
     Forall (J' m) (zip (params st) (states st)) ->
     (rule st).1 = inr tt /\
     zip (params (rule st).2) (states (rule st).2)
       = f <$> zip (params st) (states st)) ->
  (forall k m i p s, J m (p, s) -> J' m (NDArray (data p) (g k i p), s)) ->
  (forall m c, J' m c -> J (S m) (f c)) ->
  forall n k m st,
    Pre (hyperparams st) -> Forall (J m) (zip (params st) (states st)) ->
    (train rule g k n st).1 = inr tt /\
    Forall (J (n + m)%nat)
      (zip (params (train rule g k n st).2) (states (train rule g k n st).2)) /\
    hyperparams (train rule g k n st).2 = hyperparams st.
Proof.
  intros Hframe Hrule Hback Hf.
  induction n as [|n IH]; intros k m st HPre HJ.
  - simpl. auto.
  - rewrite train_unfold. cbv zeta.
    set (st1 := Store (backward (g k) (params st)) (states st) (hyperparams st)).
    destruct (Hrule st1 m) as [Hr Hz]; [exact HPre | |].
    { apply (Forall_zip_backward (J m)); auto. }
    rewrite Hr. cbv iota.
    destruct (IH (S k) (S m) (rule st1).2) as (H1 & H2 & H3).
    { by rewrite Hframe. }
    { rewrite Hz. apply Forall_fmap. eapply Forall_impl; [|apply Hf].
      apply (Forall_zip_backward (J m)); auto. }
    replace (S n + m)%nat with (n + S m)%nat by lia.
    repeat split; auto. rewrite H3. by rewrite Hframe.
Qed.

(** What every call preserves, every run preserves. *)
Lemma train_inv {T} (rule : M (store T) unit) g (I : store T -> Prop) :
  (forall st k, I st ->
     I (rule (Store (backward (g k) (params st)) (states st) (hyperparams st))).2) ->
  forall n k st, I st -> I (train rule g k n st).2.
Proof.
  intros H. induction n as [|n IH]; intros k st HI; [exact HI|].
  rewrite train_unfold. cbv zeta.
  specialize (H st k HI).
  destruct (rule _).1; auto.
Qed.

(** ** The accumulators of RMSProp and Adagrad *)

Lemma Rabs_le_square (y G : R) : Rabs y <= G -> y * y <= G * G.
Proof.
  unfold Rabs. destruct (Rcase_abs y); intros H; nra.
Qed.

Lemma ewma_bounded (gamma G : R) (s g : tensor) :
  0 <= gamma < 1 ->
  Forall (fun x => Rabs x <= G) g ->
  Forall (fun x => 0 <= x <= G * G) s ->
  Forall (fun x => 0 <= x <= G * G)
    (zip_with Rplus (smul gamma s) (smul (1 - gamma) (square g))).
Proof.
  intros Hgamma Hg Hs. unfold smul, square.
  rewrite zip_with_fmap_l, !zip_with_fmap_r.
  revert g Hg. induction Hs as [|x s Hx Hs IH]; intros g Hg; [constructor|].
  destruct Hg as [|y g Hy Hg]; simpl; constructor; auto.
  apply Rabs_le_square in Hy.
  assert (0 <= y * y) by nra.
  assert (gamma * x <= gamma * (G * G)) by (apply Rmult_le_compat_l; lra).
  assert ((1 - gamma) * (y * y) <= (1 - gamma) * (G * G))
    by (apply Rmult_le_compat_l; lra).
  assert (0 <= gamma * x) by (apply Rmult_le_pos; lra).
  assert (0 <= (1 - gamma) * (y * y)) by (apply Rmult_le_pos; lra).
  lra.
Qed.

Lemma rmsprop_body_bounded gamma eps hp G p s :
  0 <= gamma < 1 ->
  Forall (fun x => Rabs x <= G) (grad p) ->
  Forall (fun x => 0 <= x <= G * G) s ->
  Forall (fun x => 0 <= x <= G * G) (rmsprop_body gamma eps hp (p, s)).2.2.
Proof.
  intros Hgamma Hg Hs.
  pose proof (ewma_bounded gamma G s (grad p) Hgamma Hg Hs) as H.
  unfold rmsprop_body, bind, read_state, read_grad, read_data, read, lift, ew,
    getitem, assign_state, assign_data, ret, raise.
  simpl. repeat (case_decide; simpl); auto.
  all: destruct (hp !! "lr"); simpl; repeat (case_decide; simpl); auto.
Qed.

Lemma rmsprop_bounded (g : nat -> nat -> ndarray -> tensor) (gamma : pyval) (G : R) :
  0 <= to_R gamma < 1 ->
  (forall k i p, Forall (fun x => Rabs x <= G) (g k i p)) ->
  forall n k st,
    hyperparams st !! "gamma" = Some gamma ->
    Forall (Forall (fun x => 0 <= x <= G * G)) (states st) ->
    Forall (Forall (fun x => 0 <= x <= G * G)) (states (train rmsprop g k n st).2).
Proof.
  intros Hgamma Hg n k st Hk Hs.
  apply (train_inv rmsprop g
           (fun st => hyperparams st !! "gamma" = Some gamma /\
              Forall (Forall (fun x => 0 <= x <= G * G)) (states st)));
    [|by split].
  clear n k st Hk Hs. intros st k [Hk Hs].
  set (st1 := Store (backward (g k) (params st)) (states st) (hyperparams st)).
  split; [by rewrite rmsprop_hyperparams|].
  rewrite (rmsprop_unfold st1 gamma Hk).
  destruct (loop_rel (rmsprop_body (to_R gamma) 1e-6) (fun _ _ => True)
              (fun s s' => Forall (fun x => 0 <= x <= G * G) s ->
                           Forall (fun x => 0 <= x <= G * G) s') st1)
    as [_ H]; auto.
  - intros p s Hp _. split; auto. intros Hb.
    apply rmsprop_body_bounded; auto.
    simpl in Hp. apply elem_of_lookup_imap_1 in Hp as (i & p0 & -> & _).
    simpl. apply Hg.
  - simpl in H. eapply Forall2_Forall_r; [exact H|].
    eapply Forall_impl; [exact Hs|]. auto.
Qed.

Lemma Forall_eq_replicate {A} (c : A) (l : list A) :
  Forall (eq c) l -> l = replicate (length l) c.
Proof. induction 1 as [|x l <- _ IH]; simpl; [done|]. by rewrite <- IH. Qed.

Lemma length_zip_with3 {A B C D} (f : A -> B -> C -> D) la lb lc :
  length lb = length la -> length lc = length la ->
  length (zip_with3 f la lb lc) = length la.
Proof. intros Hb Hc. unfold zip_with3. rewrite !length_zip_with. lia. Qed.

(** Zero states of the shapes of their parameters. *)
Lemma zero_states (ps : list ndarray) (ss : list tensor) :
  Forall (Forall (eq 0)) ss ->
  Forall (fun pc : ndarray * tensor => length pc.2 = length (data pc.1)) (zip ps ss) ->
  Forall (fun pc : ndarray * tensor => pc.2 = replicate (length (data pc.1)) 0)
    (zip ps ss).
Proof.
  intros H0 Hs. apply Forall_lookup. intros i [p s] Hi. simpl.
  pose proof (Forall_lookup_1 _ _ _ _ Hs Hi) as Hlen. simpl in Hlen.
  apply lookup_zip_with_Some in Hi as (p' & s' & Heq & _ & Hsi).
  inversion Heq; subst p' s'.
  rewrite <- Hlen. apply Forall_eq_replicate.
  eapply Forall_lookup_1; [exact H0 | exact Hsi].
Qed.

(** Adagrad under a constant gradient [c]: after [n] calls every
    accumulator element is [n c^2]. *)
Lemma adagrad_constant_gradient (c : R) (lr : pyval) n st :
  hyperparams st !! "lr" = Some lr ->
  Forall (fun pc : ndarray * tensor => pc.2 = replicate (length (data pc.1)) 0)
    (zip (params st) (states st)) ->
  (train adagrad (const_grad c) 0 n st).1 = inr tt /\
  Forall (fun pc : ndarray * tensor =>
            pc.2 = replicate (length (data pc.1)) (INR n * (c * c)))
    (zip (params (train adagrad (const_grad c) 0 n st).2)
         (states (train adagrad (const_grad c) 0 n st).2)).
Proof.
  intros Hlr H0.
  destruct (train_cells adagrad (adagrad_cell 1e-6 (to_R lr)) (const_grad c)
              (fun hp => hp !! "lr" = Some lr)
              (fun m pc => pc.2 = replicate (length (data pc.1)) (INR m * (c * c)))
              (fun m pc => pc.2 = replicate (length (data pc.1)) (INR m * (c * c)) /\
                           grad pc.1 = replicate (length (data pc.1)) c))
    with (n := n) (k := 0%nat) (m := 0%nat) (st := st) as (H1 & H2 & _); auto.
  - exact adagrad_hyperparams.
  - intros st' m Hk HJ. apply (adagrad_ok st' lr Hk).
    eapply Forall_impl; [exact HJ|]. intros [p s] [Hs Hg]. simpl in *.
    unfold same_shape. simpl. rewrite Hs, Hg, !length_replicate. auto.
  - intros m [p s] [Hs Hg]. simpl in *. rewrite Hs, Hg.
    change (match m with 0%nat => 1 | S _ => INR m + 1 end) with (INR (S m)).
    rewrite zip_with_replicate, length_zip_with3, S_INR;
      rewrite ?length_replicate; auto.
    f_equal. ring.
  - eapply Forall_impl; [exact H0|]. intros [p s] ->. simpl.
    f_equal. lra.
  - replace (n + 0)%nat with n in H2 by lia. auto.
Qed.

(** RMSProp under a constant gradient [x]: after [n] calls every
    accumulator element is the moving average of [n] samples [x^2]. *)
Lemma rmsprop_constant_gradient (x : R) (gamma lr : pyval) n st :
  hyperparams st !! "gamma" = Some gamma ->
  hyperparams st !! "lr" = Some lr ->
  Forall (fun pc : ndarray * tensor => pc.2 = replicate (length (data pc.1)) 0)
    (zip (params st) (states st)) ->
  (train rmsprop (const_grad x) 0 n st).1 = inr tt /\
  Forall (fun pc : ndarray * tensor =>
            pc.2 = replicate (length (data pc.1))
                     (ewma_at (to_R gamma) (fun _ => x * x) n))
    (zip (params (train rmsprop (const_grad x) 0 n st).2)
         (states (train rmsprop (const_grad x) 0 n st).2)).
Proof.
  intros Hgamma Hlr H0.
  destruct (train_cells rmsprop (rmsprop_cell (to_R gamma) 1e-6 (to_R lr))
              (const_grad x)
              (fun hp => hp !! "gamma" = Some gamma /\ hp !! "lr" = Some lr)
              (fun m pc => pc.2 = replicate (length (data pc.1))
                                    (ewma_at (to_R gamma) (fun _ => x * x) m))
              (fun m pc => pc.2 = replicate (length (data pc.1))
                                    (ewma_at (to_R gamma) (fun _ => x * x) m) /\
                           grad pc.1 = replicate (length (data pc.1)) x))
    with (n := n) (k := 0%nat) (m := 0%nat) (st := st) as (H1 & H2 & _); auto.
  - exact rmsprop_hyperparams.
  - intros st' m [Hk1 Hk2] HJ. apply (rmsprop_ok st' gamma lr Hk1 Hk2).
    eapply Forall_impl; [exact HJ|]. intros [p s] [Hs Hg]. simpl in *.
    unfold same_shape. simpl. rewrite Hs, Hg, !length_replicate. auto.
  - intros m [p s] [Hs Hg]. simpl in *. rewrite Hs, Hg.
    rewrite zip_with_replicate, length_zip_with3;
      rewrite ?length_replicate; auto.
  - replace (n + 0)%nat with n in H2 by lia. auto.
Qed.

(** C5.  From zero states, with a decay rate in [[0, 1)] and gradients
    whose elements are bounded by [G] in magnitude, every element of the
    accumulators of [rmsprop] stays in [[0, G^2]] at every iteration; in
    particular it stays below [c^2] under the constant gradient [c].  Under
    the same constant nonzero gradient the accumulators of [adagrad] pass
    every bound. *)
Theorem rmsprop_bounded_adagrad_unbounded (st : store tensor) (gamma lr : pyval)
    (g : nat -> nat -> ndarray -> tensor) (G c : R) :
  hyperparams st !! "gamma" = Some gamma -> 0 <= to_R gamma < 1 ->
  hyperparams st !! "lr" = Some lr ->
  Forall (Forall (eq 0)) (states st) ->
  Forall (fun pc : ndarray * tensor => length pc.2 = length (data pc.1))
    (zip (params st) (states st)) ->
  (forall k i p, Forall (fun x => Rabs x <= G) (g k i p)) ->
  c <> 0 ->
  (forall n, Forall (Forall (fun x => 0 <= x <= G * G))
               (states (train rmsprop g 0 n st).2)) /\
  (forall n, (train rmsprop (const_grad c) 0 n st).1 = inr tt /\
             Forall (Forall (fun x => 0 <= x <= c * c))
               (states (train rmsprop (const_grad c) 0 n st).2)) /\
  (forall B, exists n,
     (train adagrad (const_grad c) 0 n st).1 = inr tt /\
     Forall (fun pc : ndarray * tensor => Forall (fun x => B < x) pc.2)
       (zip (params (train adagrad (const_grad c) 0 n st).2)
            (states (train adagrad (const_grad c) 0 n st).2))).
Proof.
  intros Hgamma Hrange Hlr H0 Hshape Hg Hc.
  assert (0 < c * c) as Hcc by nra.
  split; [|split].
  - intros n. apply (rmsprop_bounded g gamma G); auto.
    eapply Forall_impl; [exact H0|]. intros s Hs.
    eapply Forall_impl; [exact Hs|]. intros x <-.
    assert (0 <= G * G) by nra. lra.
  - intros n. split.
    { apply (rmsprop_constant_gradient c gamma lr); auto. by apply zero_states. }
    assert (Rabs c * Rabs c = c * c) as Habs
      by (unfold Rabs; destruct (Rcase_abs c); ring).
    rewrite <- Habs.
    apply (rmsprop_bounded (const_grad c) gamma (Rabs c)); auto.
    + intros k i p. unfold const_grad. apply Forall_replicate. lra.
    + eapply Forall_impl; [exact H0|]. intros s Hs.
      eapply Forall_impl; [exact Hs|]. intros x <-. lra.
  - intros B.
    destruct (INR_unbounded (B / (c * c))) as [n Hn].
    exists n.
    destruct (adagrad_constant_gradient c lr n st Hlr) as [H1 H2].
    { by apply zero_states. }
    split; [exact H1|].
    eapply Forall_impl; [exact H2|]. intros [p s] ->. simpl.
    apply Forall_replicate.
    apply Rlt_gt in Hcc.
    assert (B = B / (c * c) * (c * c)) as -> by (field; lra).
    apply Rmult_lt_compat_r; lra.
Qed.

(** ** Exponentially weighted moving average *)

Lemma ewma_const_closed (gamma c : R) (t : nat) :
  ewma_at gamma (fun _ => c) t = c * (1 - gamma ^ t).
Proof. induction t as [|t IH]; simpl; [ring|]. rewrite IH. unfold ewma. ring. Qed.

Lemma ewma_const_error (gamma c : R) (t : nat) :
  0 <= gamma ->
  Rabs (ewma_at gamma (fun _ => c) t - c) = Rabs c * gamma ^ t.
Proof.
  intros Hg. rewrite ewma_const_closed.
  replace (c * (1 - gamma ^ t) - c) with (- (c * gamma ^ t)) by ring.
  rewrite Rabs_Ropp, Rabs_mult. f_equal.
  apply Rabs_right, Rle_ge, pow_le, Hg.
Qed.

Lemma pow_le_1 (x : R) (n : nat) : 0 <= x <= 1 -> 0 <= x ^ n <= 1.
Proof.
  intros Hx. induction n as [|n IH]; simpl; [lra|]. nra.
Qed.

(** C2 as the specification states it does not hold: with [gamma = 0.9]
    and the constant input 1 the average is not within [1e-3] of 1 after 20
    steps. *)
Lemma ewma_20_steps_not_within_1e_3 :
  ~ (Rabs (ewma_at 0.9 (fun _ => 1) 20 - 1) < 1e-3).
Proof.
  rewrite ewma_const_error by lra. rewrite Rabs_R1. simpl. lra.
Qed.

(** C2, amended.  The accumulator of [rmsprop] under a constant gradient
    is the moving average of a constant input.  For a decay rate in
    [(0, 1)] and the constant input [c] the moving average is
    [c (1 - gamma^t)] after [t] steps and converges to [c].  For
    [gamma = 0.9] and [c = 1] its distance to [c] after 20 steps is
    [0.9^20], between 0.12 and 0.13; the distance is still above [1e-3]
    after 65 steps and below it from 66 steps on. *)
Theorem ewma_converges (st : store tensor) (gamma lr : pyval) (x : R) :
  hyperparams st !! "gamma" = Some gamma -> 0 < to_R gamma < 1 ->
  hyperparams st !! "lr" = Some lr ->
  Forall (fun pc : ndarray * tensor => pc.2 = replicate (length (data pc.1)) 0)
    (zip (params st) (states st)) ->
  (forall n,
     (train rmsprop (const_grad x) 0 n st).1 = inr tt /\
     Forall (fun pc : ndarray * tensor =>
               pc.2 = replicate (length (data pc.1))
                        (ewma_at (to_R gamma) (fun _ => x * x) n))
       (zip (params (train rmsprop (const_grad x) 0 n st).2)
            (states (train rmsprop (const_grad x) 0 n st).2))) /\
  (forall c t, ewma_at (to_R gamma) (fun _ => c) t = c * (1 - to_R gamma ^ t)) /\
  (forall c eps, 0 < eps ->
     exists N, forall t, (N <= t)%nat ->
       Rabs (ewma_at (to_R gamma) (fun _ => c) t - c) < eps) /\
  0.12 < Rabs (ewma_at 0.9 (fun _ => 1) 20 - 1) < 0.13 /\
  1e-3 < Rabs (ewma_at 0.9 (fun _ => 1) 65 - 1) /\
  (forall t, (66 <= t)%nat -> Rabs (ewma_at 0.9 (fun _ => 1) t - 1) < 1e-3).
Proof.
  intros Hgamma Hrange Hlr H0.
  split; [|split; [|split; [|split; [|split]]]].
  - intros n. by apply (rmsprop_constant_gradient x gamma lr).
  - intros c t. apply ewma_const_closed.
  - intros c eps Heps.
    destruct (Req_dec c 0) as [->|Hc].
    + exists 0%nat. intros t _. rewrite ewma_const_error by lra.
      rewrite Rabs_R0. lra.
    + assert (0 < Rabs c) as Hac by (by apply Rabs_pos_lt).
      destruct (pow_lt_1_zero (to_R gamma)) with (y := eps / Rabs c)
        as [N HN].
      { apply Rabs_def1; lra. }
      { by apply Rdiv_lt_0_compat. }
      exists N. intros t Ht. rewrite ewma_const_error by lra.
      specialize (HN t Ht).
      rewrite Rabs_right in HN by (apply Rle_ge, pow_le; lra).
      assert (eps = Rabs c * (eps / Rabs c)) as -> by (field; lra).
      apply Rmult_lt_compat_l; auto.
  - rewrite ewma_const_error by lra. rewrite Rabs_R1. simpl. lra.
  - rewrite ewma_const_error by lra. rewrite Rabs_R1. simpl. lra.
  - intros t Ht. rewrite ewma_const_error by lra. rewrite Rabs_R1.
    replace t with (66 + (t - 66))%nat by lia. rewrite pow_add.
    assert (0 <= 0.9 ^ (t - 66) <= 1) as Hk by (apply pow_le_1; lra).
    assert (0 < 0.9 ^ 66 < 1e-3) as H66 by (simpl; lra).
    nra.
Qed.

(** ** The theorems at the arguments of the notebooks *)

Lemma adam_update_witness :
  let st := Store example_params example_adam_states example_hyperparams in
  (hyperparams st !! "lr" = Some (PyFloat 0.01) /\
   hyperparams st !! "t" = Some (PyInt 1) /\
   (1 <= 1)%Z /\ well_shaped2 st) /\
  (adam st).1 = inr tt /\
  hyperparams (adam st).2 = <["t" := PyInt 2]> (hyperparams st).
Proof.
  intros st.
  assert (hyperparams st !! "lr" = Some (PyFloat 0.01)) as Hlr by reflexivity.
  assert (hyperparams st !! "t" = Some (PyInt 1)) as Ht by reflexivity.
  assert (1 <= 1)%Z as Ht1 by lia.
  assert (well_shaped2 st) as Hs by (repeat constructor).
  split; [auto|].
  destruct (adam_update st (PyFloat 0.01) 1 Hlr Ht Ht1 Hs) as (Hr & _ & _ & _ & Hh).
  split; [exact Hr | exact Hh].
Defined.

Lemma ewma_converges_witness :
  let st := Store example_params example_states example_hyperparams in
  (hyperparams st !! "gamma" = Some (PyFloat 0.9) /\
   0 < to_R (PyFloat 0.9) < 1 /\
   hyperparams st !! "lr" = Some (PyFloat 0.01) /\
   Forall (fun pc : ndarray * tensor => pc.2 = replicate (length (data pc.1)) 0)
     (zip (params st) (states st))) /\
  (train rmsprop (const_grad 1) 0 20 st).1 = inr tt /\
  0.12 < Rabs (ewma_at 0.9 (fun _ => 1) 20 - 1) < 0.13.
Proof.
  intros st.
  assert (hyperparams st !! "gamma" = Some (PyFloat 0.9)) as Hg by reflexivity.
  assert (0 < to_R (PyFloat 0.9) < 1) as Hr by (simpl; lra).
  assert (hyperparams st !! "lr" = Some (PyFloat 0.01)) as Hlr by reflexivity.
  assert (Forall (fun pc : ndarray * tensor =>
                    pc.2 = replicate (length (data pc.1)) 0)
            (zip (params st) (states st))) as H0 by (repeat constructor).
  split; [auto|].
  destruct (ewma_converges st (PyFloat 0.9) (PyFloat 0.01) 1 Hg Hr Hlr H0)
    as (Hrun & _ & _ & H20 & _).
  split; [exact (proj1 (Hrun 20%nat)) | exact H20].
Defined.

Lemma rules_never_fail_witness :
  let hp : gmap string pyval :=
    {["lr" := PyFloat (-1); "gamma" := PyInt 2; "t" := PyInt 0]} in
  (hp !! "gamma" = Some (PyInt 2) /\ hp !! "lr" = Some (PyFloat (-1)) /\
   hp !! "t" = Some (PyInt 0) /\ hp !! "momentum" = None /\
   convertible (PyInt 2) /\ convertible (PyFloat (-1)) /\
   time_step_in_range (PyInt 0) /\
   well_shaped (Store example_params example_states hp) /\
   well_shaped2 (Store example_params example_adam_states hp)) /\
  (adagrad (Store example_params example_states hp)).1 = inr tt /\
  (rmsprop (Store example_params example_states hp)).1 = inr tt /\
  (adam (Store example_params example_adam_states hp)).1 = inr tt.
Proof.
  intros hp.
  assert (hp !! "gamma" = Some (PyInt 2)) as Hg by reflexivity.
  assert (hp !! "lr" = Some (PyFloat (-1))) as Hlr by reflexivity.
  assert (hp !! "t" = Some (PyInt 0)) as Ht by reflexivity.
  assert (hp !! "momentum" = None) as Hm by reflexivity.
  assert (convertible (PyInt 2)) as Cg by (apply Rabs_le; simpl; lra).
  assert (convertible (PyFloat (-1))) as Clr by (apply Rabs_le; simpl; lra).
  assert (time_step_in_range (PyInt 0)) as Ct
    by (repeat split; apply Rabs_le; simpl; lra).
  assert (well_shaped (Store example_params example_states hp))
    as Hs by (repeat constructor).
  assert (well_shaped2 (Store example_params example_adam_states hp))
    as Hs2 by (repeat constructor).
  split; [auto 10|].
  destruct (rules_never_fail example_params hp) as (_ & Ha & Hr & Hd).
  split; [exact (Ha _ _ Hlr Clr Hs)|].
  split; [exact (Hr _ _ _ Hg Hlr Cg Clr Hs) | exact (Hd _ _ _ Hlr Ht Clr Ct Hs2)].
Defined.

Lemma rmsprop_bounded_adagrad_unbounded_witness :
  let st := Store example_params example_states example_hyperparams in
  (hyperparams st !! "gamma" = Some (PyFloat 0.9) /\
   0 <= to_R (PyFloat 0.9) < 1 /\
   hyperparams st !! "lr" = Some (PyFloat 0.01) /\
   Forall (Forall (eq 0)) (states st) /\
   Forall (fun pc : ndarray * tensor => length pc.2 = length (data pc.1))
     (zip (params st) (states st)) /\
   (forall k i p, Forall (fun x => Rabs x <= 2) (const_grad 2 k i p)) /\
   2 <> 0) /\
  Forall (Forall (fun x => 0 <= x <= 2 * 2))
    (states (train rmsprop (const_grad 2) 0 100 st).2) /\
  (train rmsprop (const_grad 2) 0 100 st).1 = inr tt /\
  exists n,
    (train adagrad (const_grad 2) 0 n st).1 = inr tt /\
    Forall (fun pc : ndarray * tensor => Forall (fun x => 2 * 2 < x) pc.2)
      (zip (params (train adagrad (const_grad 2) 0 n st).2)
           (states (train adagrad (const_grad 2) 0 n st).2)).
Proof.
  intros st.
  assert (hyperparams st !! "gamma" = Some (PyFloat 0.9)) as Hg by reflexivity.
  assert (0 <= to_R (PyFloat 0.9) < 1) as Hr by (simpl; lra).
  assert (hyperparams st !! "lr" = Some (PyFloat 0.01)) as Hlr by reflexivity.
  assert (Forall (Forall (eq 0)) (states st)) as H0 by (repeat constructor).
  assert (Forall (fun pc : ndarray * tensor => length pc.2 = length (data pc.1))
            (zip (params st) (states st))) as Hs by (repeat constructor).
  assert (forall k i p, Forall (fun x => Rabs x <= 2) (const_grad 2 k i p)) as Hb.
  { intros k i p. apply Forall_replicate. rewrite Rabs_right; lra. }
  assert (2 <> 0) as Hc by lra.
  split; [auto 10|].
  destruct (rmsprop_bounded_adagrad_unbounded st (PyFloat 0.9) (PyFloat 0.01)
              (const_grad 2) 2 2 Hg Hr Hlr H0 Hs Hb Hc) as (Ha & Hk & Hu).
  split; [exact (Ha 100%nat)|].
  split; [exact (proj1 (Hk 100%nat)) | exact (Hu (2 * 2))].
Defined.

Lemma momentum_zero_is_gradient_descent_witness :
  let st := Store example_params [[7; 7]; [7]]
              {["lr" := PyFloat 0.02; "momentum" := PyInt 0]} in
  (hyperparams st !! "momentum" = Some (PyInt 0) /\ to_R (PyInt 0) = 0 /\
   hyperparams st !! "lr" = Some (PyFloat 0.02) /\ well_shaped st) /\
  (sgd_momentum st).1 = inr tt /\
  states (sgd_momentum st).2 !! 1%nat = Some [0.02 * 1].
Proof.
  intros st.
  assert (hyperparams st !! "momentum" = Some (PyInt 0)) as Hm by reflexivity.
  assert (to_R (PyInt 0) = 0) as Hm0 by reflexivity.
  assert (hyperparams st !! "lr" = Some (PyFloat 0.02)) as Hlr by reflexivity.
  assert (well_shaped st) as Hs by (repeat constructor).
  split; [auto|].
  destruct (momentum_zero_is_gradient_descent st (PyInt 0) (PyFloat 0.02)
              Hm Hm0 Hlr Hs) as [Hr Hi].
  split; [exact Hr|].
  exact (proj2 (Hi 1%nat (NDArray [0] [1]) [7] eq_refl eq_refl)).
Defined.

Lemma adam_first_step_witness :
  let st := Store example_params_ones example_adam_states example_hyperparams in
  (hyperparams st !! "lr" = Some (PyFloat 0.01) /\
   hyperparams st !! "t" = Some (PyInt 1) /\
   Forall (fun c : ndarray * (tensor * tensor) =>
             grad c.1 = replicate (length (data c.1)) 1 /\
             c.2 = (replicate (length (data c.1)) 0, replicate (length (data c.1)) 0))
     (zip (params st) (states st))) /\
  (adam st).1 = inr tt /\
  states (adam st).2 !! 0%nat = Some ([0.1; 0.1], [0.001; 0.001]).
Proof.
  intros st.
  assert (hyperparams st !! "lr" = Some (PyFloat 0.01)) as Hlr by reflexivity.
  assert (hyperparams st !! "t" = Some (PyInt 1)) as Ht by reflexivity.
  assert (Forall (fun c : ndarray * (tensor * tensor) =>
                    grad c.1 = replicate (length (data c.1)) 1 /\
                    c.2 = (replicate (length (data c.1)) 0,
                           replicate (length (data c.1)) 0))
            (zip (params st) (states st))) as Hc by (repeat constructor).
  split; [auto|].
  destruct (adam_first_step st (PyFloat 0.01) Hlr Ht Hc) as (Hr & Hi & _).
  split; [exact Hr|].
  exact (proj1 (Hi 0%nat (NDArray [1; 2] [1; 1]) ([0; 0], [0; 0]) eq_refl eq_refl)).
Defined.

Lemma hyperparams_frame_witness :
  let st := Store example_params example_adam_states example_hyperparams in
  (adam st).1 = inr tt /\
  hyperparams st !! "t" = Some (PyInt 1) /\
  hyperparams (adam st).2 !! "t" = Some (PyInt 2) /\
  hyperparams (adam st).2 !! "lr" = hyperparams st !! "lr" /\
  hyperparams (rmsprop (Store example_params example_states example_hyperparams)).2
    = example_hyperparams.
Proof.
  intros st.
  assert (hyperparams st !! "lr" = Some (PyFloat 0.01)) as Hlr by reflexivity.
  assert (hyperparams st !! "t" = Some (PyInt 1)) as Ht by reflexivity.
  assert (1 <= 1)%Z as Ht1 by lia.
  assert (well_shaped2 st) as Hs by (repeat constructor).
  destruct hyperparams_frame as (_ & _ & Hrms & Hframe & Hadam).
  destruct (Hadam st (PyFloat 0.01) 1%Z Hlr Ht Ht1 Hs) as (Hr & Ht' & Hh).
  split; [exact Hr|]. split; [exact Ht|]. split; [exact Ht'|].
  split; [|exact (Hrms (Store example_params example_states example_hyperparams))].
  specialize (Hframe st). rewrite Hr in Hframe.
  destruct Hframe as (t & _ & _ & _ & _ & Hk).
  by apply Hk.
Defined.

Lemma momentum_2d_refines_sgd_momentum_witness :
  (example_globals !! "eta" = Some (PyFloat 0.4) /\
   example_globals !! "gamma" = Some (PyFloat 0.5) /\
   ({["lr" := PyFloat 0.4; "momentum" := PyFloat 0.5]} : gmap string pyval) !! "lr"
     = Some (PyFloat 0.4) /\
   ({["lr" := PyFloat 0.4; "momentum" := PyFloat 0.5]} : gmap string pyval) !! "momentum"
     = Some (PyFloat 0.5)) /\
  exists x1' x2' v1' v2',
    momentum_2d (-5) (-2) 0 0 example_globals
      = (inr (x1', x2', v1', v2'), example_globals) /\
    sgd_momentum (Store [NDArray [-5; -2] [0.2 * -5; 4 * -2]] [[0; 0]]
                    {["lr" := PyFloat 0.4; "momentum" := PyFloat 0.5]})
      = (inr tt,
         Store [NDArray [x1'; x2'] [0.2 * -5; 4 * -2]] [[v1'; v2']]
           {["lr" := PyFloat 0.4; "momentum" := PyFloat 0.5]}).
Proof.
  assert (example_globals !! "eta" = Some (PyFloat 0.4)) as He by reflexivity.
  assert (example_globals !! "gamma" = Some (PyFloat 0.5)) as Hg by reflexivity.
  assert (({["lr" := PyFloat 0.4; "momentum" := PyFloat 0.5]} : gmap string pyval)
            !! "lr" = Some (PyFloat 0.4)) as Hlr by reflexivity.
  assert (({["lr" := PyFloat 0.4; "momentum" := PyFloat 0.5]} : gmap string pyval)
            !! "momentum" = Some (PyFloat 0.5)) as Hm by reflexivity.
  split; [auto|].
  exact (momentum_2d_refines_sgd_momentum (-5) (-2) 0 0 _ _ _ _ He Hg Hlr Hm).
Defined.

(** * Further properties of the update rules *)

(** ** What no rule changes *)

Lemma sgd_momentum_body_frame hp p s :
  same_frame p (sgd_momentum_body hp (p, s)).2.1 /\
  same_length s (sgd_momentum_body hp (p, s)).2.2.
Proof.
  unfold sgd_momentum_body, same_frame, same_length. explore_body; auto.
Qed.

Lemma adagrad_body_frame eps hp p s :
  same_frame p (adagrad_body eps hp (p, s)).2.1 /\
  same_length s (adagrad_body eps hp (p, s)).2.2.
Proof.
  unfold adagrad_body, same_frame, same_length. explore_body; auto.
Qed.

Lemma rmsprop_body_frame gamma eps hp p s :
  same_frame p (rmsprop_body gamma eps hp (p, s)).2.1 /\
  same_length s (rmsprop_body gamma eps hp (p, s)).2.2.
Proof.
  unfold rmsprop_body, same_frame, same_length. explore_body; auto.
Qed.

Lemma adam_body_frame b1 b2 eps hp p s :
  same_frame p (adam_body b1 b2 eps hp (p, s)).2.1 /\
  same_length2 s (adam_body b1 b2 eps hp (p, s)).2.2.
Proof.
  destruct s as [v s].
  unfold adam_body, same_frame, same_length2. explore_body; auto.
Qed.

Lemma rmsprop_cases st :
  (exists gamma, hyperparams st !! "gamma" = Some gamma /\
     rmsprop st = loop (rmsprop_body (to_R gamma) 1e-6) st) \/
  (hyperparams st !! "gamma" = None /\ rmsprop st = (inl (KeyError "gamma"), st)).
Proof.
  destruct (hyperparams st !! "gamma") as [gamma|] eqn:Hg.
  - left. exists gamma. split; [done|]. by apply rmsprop_unfold.
  - right. split; [done|]. unfold rmsprop, bind, hp_get, getitem. by rewrite Hg.
Qed.

Lemma adam_params_states st :
  params (adam st).2 = params (loop (adam_body 0.9 0.999 1e-6) st).2 /\
  states (adam st).2 = states (loop (adam_body 0.9 0.999 1e-6) st).2.
Proof.
  rewrite adam_unfold. cbv zeta.
  destruct (loop (adam_body 0.9 0.999 1e-6) st).1; [done|].
  by destruct (hyperparams st !! "t").
Qed.

(** X1.  No rule touches a gradient or changes a shape: after a call of
    [sgd_momentum], [adagrad], [rmsprop] or [adam], whether it returns or
    raises, there are as many parameters and states as before, every
    parameter has the gradient and the number of elements it had, and every
    state tensor has the number of elements it had. *)
Theorem rules_keep_gradients_and_shapes :
  (forall st, Forall2 same_frame (params st) (params (sgd_momentum st).2) /\
              Forall2 same_length (states st) (states (sgd_momentum st).2)) /\
  (forall st, Forall2 same_frame (params st) (params (adagrad st).2) /\
              Forall2 same_length (states st) (states (adagrad st).2)) /\
  (forall st, Forall2 same_frame (params st) (params (rmsprop st).2) /\
              Forall2 same_length (states st) (states (rmsprop st).2)) /\
  (forall st, Forall2 same_frame (params st) (params (adam st).2) /\
              Forall2 same_length2 (states st) (states (adam st).2)).
Proof.
  assert (forall p, same_frame p p) as Hp by (by split).
  assert (forall s, same_length s s) as Hs by done.
  assert (forall s, same_length2 s s) as Hs2 by (by split).
  repeat split.
  - apply (loop_rel sgd_momentum_body same_frame same_length); auto.
    intros p s _ _. apply sgd_momentum_body_frame.
  - apply (loop_rel sgd_momentum_body same_frame same_length); auto.
    intros p s _ _. apply sgd_momentum_body_frame.
  - apply (loop_rel (adagrad_body 1e-6) same_frame same_length); auto.
    intros p s _ _. apply adagrad_body_frame.
  - apply (loop_rel (adagrad_body 1e-6) same_frame same_length); auto.
    intros p s _ _. apply adagrad_body_frame.
  - destruct (rmsprop_cases st) as [(gamma & _ & ->)|[_ ->]];
      [|by apply Forall2_diag].
    apply (loop_rel (rmsprop_body (to_R gamma) 1e-6) same_frame same_length); auto.
    intros p s _ _. apply rmsprop_body_frame.
  - destruct (rmsprop_cases st) as [(gamma & _ & ->)|[_ ->]];
      [|by apply Forall2_diag].
    apply (loop_rel (rmsprop_body (to_R gamma) 1e-6) same_frame same_length); auto.
    intros p s _ _. apply rmsprop_body_frame.
  - rewrite (proj1 (adam_params_states st)).
    apply (loop_rel (adam_body 0.9 0.999 1e-6) same_frame same_length2); auto.
    intros p s _ _. apply adam_body_frame.
  - rewrite (proj2 (adam_params_states st)).
    apply (loop_rel (adam_body 0.9 0.999 1e-6) same_frame same_length2); auto.
    intros p s _ _. apply adam_body_frame.
Qed.

(** ** Parameters and states that [zip] does not pair *)

Lemma for_zip_unpaired {P S} (body : M (P * S) unit) ps ss i :
  (length ps <= i)%nat \/ (length ss <= i)%nat ->
  (for_zip body ps ss).2.1 !! i = ps !! i /\
  (for_zip body ps ss).2.2 !! i = ss !! i.
Proof.
  revert ss i. induction ps as [|p ps IH]; intros [|s ss] i Hi; simpl; auto.
  destruct i as [|i]; [simpl in Hi; lia|].
  specialize (IH ss i). simpl in Hi.
  destruct (body (p, s)) as [[e|[]] [p' s']]; simpl; auto.
  destruct (for_zip body ps ss) as [r [ps' ss']]; simpl in *.
  apply IH. lia.
Qed.

Lemma loop_unpaired {S} (body : gmap string pyval -> M (ndarray * S) unit) st i :
  (length (params st) <= i)%nat \/ (length (states st) <= i)%nat ->
  params (loop body st).2 !! i = params st !! i /\
  states (loop body st).2 !! i = states st !! i.
Proof.
  intros Hi. unfold loop.
  pose proof (for_zip_unpaired (body (hyperparams st)) _ _ i Hi) as H.
  by destruct (for_zip (body (hyperparams st)) (params st) (states st))
    as [r [ps ss]].
Qed.

(** X2.  A rule works on the pairs that [zip] forms and on nothing else:
    a parameter without a state, or a state without a parameter, is after
    the call what it was before. *)
Theorem unpaired_untouched (st : store tensor) (st2 : store (tensor * tensor))
    (i : nat) :
  (length (params st) <= i)%nat \/ (length (states st) <= i)%nat ->
  (length (params st2) <= i)%nat \/ (length (states st2) <= i)%nat ->
  (params (sgd_momentum st).2 !! i = params st !! i /\
   states (sgd_momentum st).2 !! i = states st !! i) /\
  (params (adagrad st).2 !! i = params st !! i /\
   states (adagrad st).2 !! i = states st !! i) /\
  (params (rmsprop st).2 !! i = params st !! i /\
   states (rmsprop st).2 !! i = states st !! i) /\
  (params (adam st2).2 !! i = params st2 !! i /\
   states (adam st2).2 !! i = states st2 !! i).
Proof.
  intros Hi Hi2. split; [|split; [|split]].
  - by apply loop_unpaired.
  - by apply loop_unpaired.
  - destruct (rmsprop_cases st) as [(gamma & _ & ->)|[_ ->]]; [|done].
    by apply loop_unpaired.
  - rewrite (proj1 (adam_params_states st2)), (proj2 (adam_params_states st2)).
    by apply loop_unpaired.
Qed.

(** X3.  Without a pair to work on, [sgd_momentum] and [adagrad] return
    normally whatever the dictionary holds, also an empty one; [rmsprop]
    still reads ['gamma'] and [adam] still reads ['t'] and writes it back
    increased by one. *)
Theorem rules_without_pairs (ps : list ndarray) (ss : list tensor)
    (ss2 : list (tensor * tensor)) (hp : gmap string pyval) :
  ps = [] \/ ss = [] ->
  ps = [] \/ ss2 = [] ->
  sgd_momentum (Store ps ss hp) = (inr tt, Store ps ss hp) /\
  adagrad (Store ps ss hp) = (inr tt, Store ps ss hp) /\
  rmsprop (Store ps ss hp)
    = (match hp !! "gamma" with
       | Some _ => inr tt
       | None => inl (KeyError "gamma")
       end, Store ps ss hp) /\
  adam (Store ps ss2 hp)
    = match hp !! "t" with
      | Some t => (inr tt, Store ps ss2 (<["t" := py_add1 t]> hp))
      | None => (inl (KeyError "t"), Store ps ss2 hp)
      end.
Proof.
  intros H1 H2.
  assert (forall (S : Type) (body : M (ndarray * S) unit) (l : list S),
            ps = [] \/ l = [] -> for_zip body ps l = (inr tt, (ps, l))) as Hz.
  { intros S body l [-> | ->]; [done|]. by destruct ps. }
  repeat split.
  - unfold sgd_momentum, loop. simpl. by rewrite Hz.
  - unfold adagrad, loop. simpl. by rewrite Hz.
  - unfold rmsprop, bind, hp_get, getitem, loop. simpl.
    destruct (hp !! "gamma"); simpl; [|done]. by rewrite Hz.
  - unfold adam, bind, hp_get, hp_set, getitem, modify, loop. simpl.
    rewrite Hz by done. simpl. by destruct (hp !! "t").
Qed.

(** ** Missing hyperparameters *)

(** X4.  [sgd_momentum] reads both its hyperparameters before it writes:
    when ['momentum'] or ['lr'] is missing and there is a pair to work on,
    it raises [KeyError] for the first of the two that is missing and
    leaves parameters, states and dictionary as they were. *)
Theorem sgd_momentum_missing_key (p : ndarray) (ps : list ndarray)
    (v : tensor) (vs : list tensor) (hp : gmap string pyval) :
  hp !! "momentum" = None \/ hp !! "lr" = None ->
  sgd_momentum (Store (p :: ps) (v :: vs) hp)
  = (inl (KeyError (match hp !! "momentum" with
                    | None => "momentum"
                    | Some _ => "lr"
                    end)),
     Store (p :: ps) (v :: vs) hp).
Proof.
  intros H. unfold sgd_momentum, loop, sgd_momentum_body. simpl.
  unfold bind, getitem, read_state, read.
  destruct (hp !! "momentum") as [m|] eqn:Hm; simpl; [|done].
  destruct H as [H|H]; [done|]. by rewrite H.
Qed.


(** X6.  [adam] reads ['t'] and ['lr'] after it has written [v] and [s]:
    when one of them is missing it raises [KeyError] for it, ['t'] first,
    and the state of the first pair has already taken the gradient in; the
    parameters, the other states and the dictionary are as they were, so
    the time step has not advanced.  (A time step that is there is one
    whose powers are floats: the powers are computed before ['lr'] is
    read.) *)
Theorem adam_missing_key (p : ndarray) (ps : list ndarray)
    (v s : tensor) (ss : list (tensor * tensor)) (hp : gmap string pyval) :
  hp !! "t" = None \/ hp !! "lr" = None ->
  (forall t, hp !! "t" = Some t -> time_step_in_range t) ->
  length v = length (grad p) -> length s = length (grad p) ->
  adam (Store (p :: ps) ((v, s) :: ss) hp)
  = (inl (KeyError (match hp !! "t" with None => "t" | Some _ => "lr" end)),
     Store (p :: ps)
       ((zip_with (fun v g => 0.9 * v + (1 - 0.9) * g) v (grad p),
         zip_with (fun s g => 0.999 * s + (1 - 0.999) * (g * g)) s (grad p)) :: ss)
       hp).
Proof.
  intros H _ Hv Hs. rewrite adam_unfold. cbv zeta.
  unfold loop, adam_body. simpl.
  destruct (hp !! "t") as [t|] eqn:Ht.
  - destruct H as [H|H]; [done|]. run_body.
    unfold smul, square. by rewrite !zip_with_fmap_l, !zip_with_fmap_r.
  - run_body.
    unfold smul, square. by rewrite !zip_with_fmap_l, !zip_with_fmap_r.
Qed.

(** ** How far one call moves a parameter *)

Lemma lookup_zip_with3 {A B C D} (f : A -> B -> C -> D) la lb lc i a b c :
  la !! i = Some a -> lb !! i = Some b -> lc !! i = Some c ->
  zip_with3 f la lb lc !! i = Some (f a b c).
Proof.
  intros Ha Hb Hc. unfold zip_with3.
  rewrite lookup_zip_with, Ha. simpl.
  rewrite lookup_zip_with, Hb. simpl. by rewrite Hc.
Qed.

Lemma scaled_step_bound (k lr g s eps : R) :
  0 < eps -> 0 <= k -> k * (g * g) <= s ->
  sqrt k * Rabs (lr * g / sqrt (s + eps)) <= Rabs lr.
Proof.
  intros Heps Hk Hs.
  assert (0 <= g * g) as Hgg by nra.
  assert (0 < sqrt (s + eps)) as Hd by (apply sqrt_lt_R0; nra).
  assert (sqrt k * Rabs g <= sqrt (s + eps)) as Hle.
  { replace (Rabs g) with (sqrt (g * g)) by apply sqrt_Rsqr_abs.
    rewrite <- sqrt_mult by lra. apply sqrt_le_1_alt. lra. }
  unfold Rdiv. rewrite !Rabs_mult, Rabs_inv, (Rabs_pos_eq (sqrt _)) by lra.
  assert (0 <= Rabs lr) by apply Rabs_pos.
  assert (0 <= Rabs g) by apply Rabs_pos.
  assert (0 <= sqrt k) by apply sqrt_pos.
  assert (0 < / sqrt (s + eps)) as Hi by (by apply Rinv_0_lt_compat).
  replace (sqrt k * (Rabs lr * Rabs g * / sqrt (s + eps)))
    with (Rabs lr * ((sqrt k * Rabs g) * / sqrt (s + eps))) by ring.
  rewrite <- (Rmult_1_r (Rabs lr)) at 2.
  apply Rmult_le_compat_l; [lra|].
  apply (Rmult_le_reg_r (sqrt (s + eps))); [lra|].
  rewrite Rmult_assoc, Rinv_l by lra. lra.
Qed.

(** The parameter of a pair after [adagrad] or [rmsprop], where the
    accumulator [s'] that divides the gradient is at least [k g^2]. *)
Lemma scaled_cell_bound (k lr eps : R) (x g s' : tensor) :
  0 < eps -> 0 <= k ->
  length g = length x -> length s' = length x ->
  Forall2 (fun g s => k * (g * g) <= s) g s' ->
  Forall2 (fun x x' => sqrt k * Rabs (x' - x) <= Rabs lr) x
    (zip_with3 (fun x g s => x - lr * g / sqrt (s + eps)) x g s').
Proof.
  intros Heps Hk Hg Hs Hgs.
  apply Forall2_same_length_lookup. split.
  { by rewrite length_zip_with3. }
  intros i a a' Ha Ha'.
  destruct (lookup_lt_is_Some_2 g i) as [b Hb].
  { rewrite Hg. by eapply lookup_lt_Some. }
  destruct (lookup_lt_is_Some_2 s' i) as [c Hc].
  { rewrite Hs. by eapply lookup_lt_Some. }
  rewrite (lookup_zip_with3 _ _ _ _ _ _ _ _ Ha Hb Hc) in Ha'.
  inversion Ha'; subst a'.
  replace (a - lr * b / sqrt (c + eps) - a) with (- (lr * b / sqrt (c + eps)))
    by ring.
  rewrite Rabs_Ropp. apply scaled_step_bound; auto.
  eapply Forall2_lookup_lr in Hgs; [exact Hgs | exact Hb | exact Hc].
Qed.

Lemma unchanged_within (k lr : R) (x : tensor) :
  Forall2 (fun x x' => sqrt k * Rabs (x' - x) <= Rabs lr) x x.
Proof.
  apply Forall2_diag. intros a.
  replace (a - a) with 0 by ring. rewrite Rabs_R0, Rmult_0_r. apply Rabs_pos.
Qed.

Lemma paired_cell (st : store tensor) i p s :
  well_shaped st -> params st !! i = Some p -> states st !! i = Some s ->
  same_shape (p, s).
Proof.
  intros Hs Hp Hv. eapply Forall_lookup_1; [exact Hs|].
  rewrite lookup_zip_with, Hp. simpl. by rewrite Hv.
Qed.

(** X7.  From accumulators that are not negative, one call of [adagrad]
    moves no parameter element by more than the learning rate, however
    large the gradient is. *)
Theorem adagrad_step_bounded (st : store tensor) (lr : pyval) (i : nat)
    (p p' : ndarray) :
  hyperparams st !! "lr" = Some lr ->
  well_shaped st ->
  Forall (Forall (fun x => 0 <= x)) (states st) ->
  params st !! i = Some p ->
  params (adagrad st).2 !! i = Some p' ->
  Forall2 (fun x x' => Rabs (x' - x) <= Rabs (to_R lr)) (data p) (data p').
Proof.
  intros Hlr Hs Hpos Hp Hp'.
  assert (Forall2 (fun x x' => sqrt 1 * Rabs (x' - x) <= Rabs (to_R lr))
            (data p) (data p')) as H.
  { destruct (states st !! i) as [s|] eqn:Hv.
    - destruct (adagrad_ok st lr Hlr Hs) as [_ Hz].
      destruct (zip_fmap_lookup _ _ _ _ _ i p s Hz Hp Hv) as [H1 _].
      rewrite H1 in Hp'. inversion Hp'; subst p'. clear Hp' H1.
      destruct (paired_cell st i p s Hs Hp Hv) as [Hd Hl]. simpl in Hd, Hl.
      unfold adagrad_cell. simpl.
      apply scaled_cell_bound; try lra; auto.
      { rewrite length_zip_with. lia. }
      assert (Forall (fun x => 0 <= x) s) as Hsp
        by (eapply Forall_lookup_1; eauto).
      apply Forall2_same_length_lookup. split.
      { rewrite length_zip_with. lia. }
      intros j g x Hg Hx.
      apply lookup_zip_with_Some in Hx as (a & b & -> & Ha & Hb).
      rewrite Hg in Hb. inversion Hb; subst b.
      pose proof (Forall_lookup_1 _ _ _ _ Hsp Ha) as H0. simpl in H0. nra.
    - destruct (loop_unpaired (adagrad_body 1e-6) st i) as [H1 _].
      { right. by apply lookup_ge_None. }
      change (loop (adagrad_body 1e-6) st) with (adagrad st) in H1.
      rewrite H1, Hp in Hp'. inversion Hp'; subst p'.
      apply unchanged_within. }
  rewrite sqrt_1 in H. eapply Forall2_impl; [exact H|].
  intros x x' Hx. simpl in Hx. lra.
Qed.

(** X8.  From accumulators that are not negative and with a decay rate in
    [[0, 1]], one call of [rmsprop] moves no parameter element by more
    than [lr / sqrt (1 - gamma)]. *)
Theorem rmsprop_step_bounded (st : store tensor) (gamma lr : pyval) (i : nat)
    (p p' : ndarray) :
  hyperparams st !! "gamma" = Some gamma -> 0 <= to_R gamma <= 1 ->
  hyperparams st !! "lr" = Some lr ->
  well_shaped st ->
  Forall (Forall (fun x => 0 <= x)) (states st) ->
  params st !! i = Some p ->
  params (rmsprop st).2 !! i = Some p' ->
  Forall2 (fun x x' => sqrt (1 - to_R gamma) * Rabs (x' - x) <= Rabs (to_R lr))
    (data p) (data p').
Proof.
  intros Hgamma Hrange Hlr Hs Hpos Hp Hp'.
  destruct (states st !! i) as [s|] eqn:Hv.
  - destruct (rmsprop_ok st gamma lr Hgamma Hlr Hs) as [_ Hz].
    destruct (zip_fmap_lookup _ _ _ _ _ i p s Hz Hp Hv) as [H1 _].
    rewrite H1 in Hp'. inversion Hp'; subst p'. clear Hp' H1.
    destruct (paired_cell st i p s Hs Hp Hv) as [Hd Hl]. simpl in Hd, Hl.
    unfold rmsprop_cell. simpl.
    apply scaled_cell_bound; try lra; auto.
    { rewrite length_zip_with. lia. }
    assert (Forall (fun x => 0 <= x) s) as Hsp
      by (eapply Forall_lookup_1; eauto).
    apply Forall2_same_length_lookup. split.
    { rewrite length_zip_with. lia. }
    intros j g x Hg Hx.
    apply lookup_zip_with_Some in Hx as (a & b & -> & Ha & Hb).
    rewrite Hg in Hb. inversion Hb; subst b.
    pose proof (Forall_lookup_1 _ _ _ _ Hsp Ha) as H0. simpl in H0.
    unfold ewma. nra.
  - rewrite (rmsprop_unfold st gamma Hgamma) in Hp'.
    destruct (loop_unpaired (rmsprop_body (to_R gamma) 1e-6) st i) as [H1 _].
    { right. by apply lookup_ge_None. }
    rewrite H1, Hp in Hp'. inversion Hp'; subst p'.
    apply unchanged_within.
Qed.

(** ** The first step of Adam *)

Lemma zip_fmap_fmap {A B C} (h1 : A -> B) (h2 : A -> C) (l : list A) :
  zip (h1 <$> l) (h2 <$> l) = (fun a => (h1 a, h2 a)) <$> l.
Proof. induction l as [|a l IH]; simpl; [done|]. f_equal. exact IH. Qed.

Lemma adam_first_element (lr x g : R) :
  adam_x lr 1 x (adam_v 0 g) (adam_s 0 g) = x - lr * g / (Rabs g + 1e-6).
Proof.
  unfold adam_x, adam_v_hat, adam_s_hat, adam_v, adam_s. simpl.
  replace ((0.9 * 0 + 0.1 * g) / (1 - 0.9 * 1)) with g by lra.
  replace ((0.999 * 0 + 0.001 * g * g) / (1 - 0.999 * 1)) with (Rsqr g)
    by (unfold Rsqr; nra).
  by rewrite sqrt_Rsqr_abs.
Qed.

Lemma smoothed_sign_bound (lr g : R) :
  Rabs (lr * g / (Rabs g + 1e-6)) <= Rabs lr.
Proof.
  assert (0 <= Rabs g) as Hg by apply Rabs_pos.
  assert (0 <= Rabs lr) as Hlr by apply Rabs_pos.
  assert (0 < / (Rabs g + 1e-6)) as Hi by (apply Rinv_0_lt_compat; lra).
  assert (Rabs g * / (Rabs g + 1e-6) <= 1) as H1.
  { apply (Rmult_le_reg_r (Rabs g + 1e-6)); [lra|].
    rewrite Rmult_assoc, Rinv_l by lra. lra. }
  unfold Rdiv. rewrite !Rabs_mult, Rabs_inv, (Rabs_pos_eq (Rabs g + _)) by lra.
  rewrite Rmult_assoc.
  assert (0 <= Rabs g * / (Rabs g + 1e-6)) by (apply Rmult_le_pos; lra).
  nra.
Qed.

(** X9.  The first call of [adam], at time step 1 and from zero states,
    moves every parameter element [x] with gradient [g] to
    [x - lr g / (|g| + 1e-6)]: against the sign of the gradient, by less
    than the learning rate whatever the size of the gradient, and not at
    all where the gradient is zero.  The states become [0.1 g] and
    [0.001 g^2]. *)
Theorem adam_first_step_any_gradient (st : store (tensor * tensor)) (lr : pyval)
    (i : nat) (p : ndarray) (vs : tensor * tensor) :
  hyperparams st !! "lr" = Some lr ->
  hyperparams st !! "t" = Some (PyInt 1) ->
  Forall (fun c : ndarray * (tensor * tensor) =>
            length (grad c.1) = length (data c.1) /\
            c.2 = (zeros (length (data c.1)), zeros (length (data c.1))))
    (zip (params st) (states st)) ->
  params st !! i = Some p -> states st !! i = Some vs ->
  let data' :=
    zip_with (fun x g => x - to_R lr * g / (Rabs g + 1e-6)) (data p) (grad p) in
  params (adam st).2 !! i = Some (NDArray data' (grad p)) /\
  states (adam st).2 !! i
    = Some ((fun g => 0.1 * g) <$> grad p, (fun g => 0.001 * g * g) <$> grad p) /\
  Forall2 (fun x x' => Rabs (x' - x) <= Rabs (to_R lr)) (data p) data'.
Proof.
  intros Hlr Ht Hc Hp Hv data'.
  assert (well_shaped2 st) as Hs.
  { eapply Forall_impl; [exact Hc|]. intros [q [v s]] [Hg Hvs]. simpl in *.
    inversion Hvs; subst. unfold same_shape2, zeros; simpl.
    rewrite Hg, !length_replicate. auto. }
  destruct (adam_ok st lr 1 Hlr Ht Hs) as (_ & Hz & _).
  destruct vs as [v s].
  destruct (zip_fmap_lookup _ _ _ _ _ i p (v, s) Hz Hp Hv) as [H1 H2].
  rewrite H1, H2. clear H1 H2.
  assert (length (grad p) = length (data p) /\
          (v, s) = (zeros (length (data p)), zeros (length (data p))))
    as [Hg Hvs].
  { eapply (Forall_lookup_1 _ _ i (p, (v, s))) in Hc; [exact Hc|].
    rewrite lookup_zip_with, Hp. simpl. by rewrite Hv. }
  inversion Hvs; subst v s. unfold adam_cell, zeros. simpl.
  rewrite !zip_with_replicate_l by lia.
  assert (zip_with3 (adam_x (to_R lr) 1) (data p)
            (adam_v 0 <$> grad p) (adam_s 0 <$> grad p) = data') as ->.
  { unfold zip_with3. rewrite zip_fmap_fmap, zip_with_fmap_r. simpl.
    apply zip_with_ext; auto. intros x g. apply adam_first_element. }
  split; [done|]. split.
  - do 2 f_equal; apply list_fmap_ext; intros _ g _;
      unfold adam_v, adam_s; lra.
  - apply Forall2_same_length_lookup. split.
    { unfold data'. rewrite length_zip_with. lia. }
    intros j x x' Hx Hx'. unfold data' in Hx'.
    apply lookup_zip_with_Some in Hx' as (a & g & -> & Ha & _).
    rewrite Hx in Ha. inversion Ha; subst a.
    replace (x - to_R lr * g / (Rabs g + 1e-6) - x)
      with (- (to_R lr * g / (Rabs g + 1e-6))) by ring.
    rewrite Rabs_Ropp. apply smoothed_sign_bound.
Qed.

(** ** RMSProp without memory *)

(** X10.  With decay rate 0, [rmsprop] forgets its accumulators: whatever
    they hold, it returns and writes what [adagrad] returns and writes when
    it starts from zero accumulators. *)
Theorem rmsprop_gamma_zero_is_adagrad_from_zero (st : store tensor)
    (gamma lr : pyval) :
  hyperparams st !! "gamma" = Some gamma -> to_R gamma = 0 ->
  hyperparams st !! "lr" = Some lr ->
  well_shaped st ->
  let st0 := Store (params st) ((fun s => zeros (length s)) <$> states st)
               (hyperparams st) in
  (rmsprop st).1 = inr tt /\ (adagrad st0).1 = inr tt /\
  zip (params (rmsprop st).2) (states (rmsprop st).2)
  = zip (params (adagrad st0).2) (states (adagrad st0).2).
Proof.
  intros Hgamma H0 Hlr Hs st0.
  assert (zip (params st0) (states st0)
          = (fun c : ndarray * tensor => (c.1, zeros (length c.2)))
              <$> zip (params st) (states st)) as Hz0.
  { unfold st0. simpl.
    rewrite <- (list_fmap_id (params st)) at 1.
    rewrite zip_with_fmap_l, zip_with_fmap_r, zip_with_zip.
    apply list_fmap_ext. by intros _ [p s] _. }
  assert (well_shaped st0) as Hs0.
  { unfold well_shaped. rewrite Hz0. apply Forall_fmap.
    eapply Forall_impl; [exact Hs|]. intros [p s] [H1 H2].
    unfold same_shape, zeros in *. simpl in *.
    by rewrite length_replicate. }
  destruct (rmsprop_ok st gamma lr Hgamma Hlr Hs) as [Hr Hz].
  destruct (adagrad_ok st0 lr Hlr Hs0) as [Hr' Hz'].
  split; [done|]. split; [done|].
  rewrite Hz, Hz', Hz0, <- list_fmap_compose.
  apply Forall_fmap_ext_1. eapply Forall_impl; [exact Hs|].
  intros [p s] [H1 H2]. unfold same_shape in *. simpl in *.
  unfold rmsprop_cell, adagrad_cell, zeros. simpl. rewrite H0.
  assert (zip_with (fun s0 g => ewma 0 s0 (g * g)) s (grad p)
          = zip_with (fun s0 g => s0 + g * g) (replicate (length s) 0) (grad p))
    as ->; [|done].
  rewrite zip_with_replicate_l by lia.
  rewrite <- (zip_with_const_l (fun g => 0 + g * g) s (grad p)) by done.
  apply zip_with_ext; auto. intros. unfold ewma. lra.
Qed.

(** ** Where the gradient vanishes *)


(** ** Runs of several calls *)

Lemma Forall2_zip_backward {A T} (J J' : A -> ndarray * T -> Prop) gk
    (l0 : list A) ps (ss : list T) :
  (forall i c0 p s, J c0 (p, s) -> J' c0 (NDArray (data p) (gk i p), s)) ->
  Forall2 J l0 (zip ps ss) -> Forall2 J' l0 (zip (backward gk ps) ss).
Proof.
  intros HJ H. apply Forall2_same_length_lookup. split.
  { rewrite (Forall2_length _ _ _ H), !length_zip_with.
    unfold backward. by rewrite length_imap. }
  intros i c0 [p' s] Hc0 Hi.
  apply lookup_zip_with_Some in Hi as (p'' & s' & Heq & Hp & Hs).
  inversion Heq; subst p'' s'. clear Heq.
  unfold backward in Hp. rewrite list_lookup_imap in Hp.
  destruct (ps !! i) as [p|] eqn:Hpi; simpl in Hp; [|discriminate].
  inversion Hp; subst p'. apply HJ.
  eapply Forall2_lookup_lr; [exact H | exact Hc0 |].
  rewrite lookup_zip_with, Hpi. simpl. by rewrite Hs.
Qed.

(** A run of a rule whose call number [m] applies [f m] to every pair:
    [J m] relates every pair after [m] calls to the pair the run started
    from, [J' m] once the provider has stored the next gradients, and
    [Pre m] is what the dictionary satisfies after [m] calls. *)
Lemma train_cells_rel {T} (rule : M (store T) unit)
    (f : nat -> ndarray * T -> ndarray * T) g
    (Pre : nat -> gmap string pyval -> Prop)
    (W : nat -> ndarray * T -> Prop)
    (J J' : nat -> ndarray * T -> ndarray * T -> Prop) :
  (forall st m, Pre m (hyperparams st) ->
     Forall (W m) (zip (params st) (states st)) ->
     (rule st).1 = inr tt /\
     zip (params (rule st).2) (states (rule st).2)
       = f m <$> zip (params st) (states st) /\
     Pre (S m) (hyperparams (rule st).2)) ->
  (forall k m i c0 p s, J m c0 (p, s) -> J' m c0 (NDArray (data p) (g k i p), s)) ->
  (forall m c0 c, J' m c0 c -> W m c /\ J (S m) c0 (f m c)) ->
  forall n k m st l0,
    Pre m (hyperparams st) ->
    Forall2 (J m) l0 (zip (params st) (states st)) ->
    (train rule g k n st).1 = inr tt /\
    Forall2 (J (n + m)%nat) l0
      (zip (params (train rule g k n st).2) (states (train rule g k n st).2)) /\
    Pre (n + m)%nat (hyperparams (train rule g k n st).2).
Proof.
  intros Hrule Hback Hf.
  induction n as [|n IH]; intros k m st l0 HPre HJ.
  - simpl. auto.
  - rewrite train_unfold. cbv zeta.
    set (st1 := Store (backward (g k) (params st)) (states st) (hyperparams st)).
    assert (Forall2 (J' m) l0 (zip (params st1) (states st1))) as HJ'.
    { apply (Forall2_zip_backward (J m)); [|exact HJ].
      intros. by apply Hback. }
    destruct (Hrule st1 m) as (Hr & Hz & HPre'); [exact HPre | |].
    { eapply Forall2_Forall_r; [exact HJ'|].
      apply Forall_forall. intros c0 _ c Hc. by apply (Hf m c0). }
    rewrite Hr. cbv iota.
    replace (S n + m)%nat with (n + S m)%nat by lia.
    apply IH; [exact HPre'|].
    rewrite Hz. apply Forall2_fmap_r.
    eapply Forall2_impl; [exact HJ'|]. intros c0 c Hc. by apply (Hf m c0).
Qed.

(** X12.  Under a constant gradient and from zero velocities the velocity
    of [sgd_momentum] is the moving average of [lr c / (1 - momentum)]: after
    [n] calls every element [v] satisfies
    [(1 - momentum) v = lr c (1 - momentum^n)], so that a momentum in
    [[0, 1)] multiplies the step of plain gradient descent by up to
    [1 / (1 - momentum)] and never by more. *)
Theorem momentum_terminal_velocity (st : store tensor) (momentum lr : pyval)
    (c : R) (n : nat) :
  hyperparams st !! "momentum" = Some momentum -> 0 <= to_R momentum < 1 ->
  hyperparams st !! "lr" = Some lr ->
  Forall (fun pc : ndarray * tensor => pc.2 = zeros (length (data pc.1)))
    (zip (params st) (states st)) ->
  (train sgd_momentum (const_grad c) 0 n st).1 = inr tt /\
  Forall (fun pc : ndarray * tensor =>
            pc.2 = replicate (length (data pc.1))
                     (ewma_at (to_R momentum)
                        (fun _ => to_R lr * c / (1 - to_R momentum)) n) /\
            Forall (fun v =>
                      (1 - to_R momentum) * v
                        = to_R lr * c * (1 - to_R momentum ^ n) /\
                      (1 - to_R momentum) * Rabs v <= Rabs (to_R lr * c))
              pc.2)
    (zip (params (train sgd_momentum (const_grad c) 0 n st).2)
         (states (train sgd_momentum (const_grad c) 0 n st).2)).
Proof.
  intros Hm Hrange Hlr H0.
  set (gm := to_R momentum) in *.
  set (target := to_R lr * c / (1 - gm)).
  destruct (train_cells sgd_momentum (momentum_cell gm (to_R lr)) (const_grad c)
              (fun hp => hp !! "momentum" = Some momentum /\ hp !! "lr" = Some lr)
              (fun m pc => pc.2 = replicate (length (data pc.1))
                                    (ewma_at gm (fun _ => target) m))
              (fun m pc => pc.2 = replicate (length (data pc.1))
                                    (ewma_at gm (fun _ => target) m) /\
                           grad pc.1 = replicate (length (data pc.1)) c))
    with (n := n) (k := 0%nat) (m := 0%nat) (st := st) as (H1 & H2 & _); auto.
  - exact sgd_momentum_hyperparams.
  - intros st' m [Hk1 Hk2] HJ. apply (sgd_momentum_ok st' momentum lr Hk1 Hk2).
    eapply Forall_impl; [exact HJ|]. intros [p s] [Hs Hg]. simpl in *.
    unfold same_shape. simpl. rewrite Hs, Hg, !length_replicate. auto.
  - intros m [p s] [Hs Hg]. simpl in *. rewrite Hs, Hg.
    rewrite zip_with_replicate, length_zip_with, !length_replicate.
    replace (length (data p) `min` length (data p))%nat with (length (data p))
      by lia.
    f_equal. unfold ewma, target. field. lra.
  - split; [exact H1|].
    replace (n + 0)%nat with n in H2 by lia.
    eapply Forall_impl; [exact H2|]. intros [p s] ->. simpl. split; [done|].
    apply Forall_replicate. rewrite ewma_const_closed. unfold target.
    assert (0 <= gm ^ n <= 1) as Hpow by (apply pow_le_1; lra).
    assert ((1 - gm) * (to_R lr * c / (1 - gm) * (1 - gm ^ n))
            = to_R lr * c * (1 - gm ^ n)) as E by (field; lra).
    split; [exact E|].
    rewrite <- (Rabs_pos_eq (1 - gm)) at 1 by lra.
    rewrite <- Rabs_mult, E, Rabs_mult, (Rabs_pos_eq (1 - gm ^ n)) by lra.
    assert (0 <= Rabs (to_R lr * c)) by apply Rabs_pos.
    nra.
Qed.

(** ** Runs of Adam *)

(** The call of [adam] after [m] earlier calls of a run that started at
    time step [t0] with the dictionary [hp0]. *)
Lemma adam_call (hp0 : gmap string pyval) (lr : pyval) (t0 : Z) (m : nat) st :
  hp0 !! "lr" = Some lr ->
  hyperparams st = <["t" := PyInt (t0 + Z.of_nat m)]> hp0 ->
  well_shaped2 st ->
  (adam st).1 = inr tt /\
  zip (params (adam st).2) (states (adam st).2)
    = adam_cell (to_R lr) (t0 + Z.of_nat m) <$> zip (params st) (states st) /\
  hyperparams (adam st).2 = <["t" := PyInt (t0 + Z.of_nat (S m))]> hp0.
Proof.
  intros Hlr Hh Hs.
  destruct (adam_ok st lr (t0 + Z.of_nat m)) as (Hr & Hz & Hh'); auto.
  - by rewrite Hh, lookup_insert_ne.
  - by rewrite Hh, lookup_insert_eq.
  - repeat split; auto.
    rewrite Hh', Hh, insert_insert_eq. do 2 f_equal. lia.
Qed.

(** A run of [adam] on gradients of the shapes of their parameters. *)
Lemma adam_run (st : store (tensor * tensor)) (lr : pyval)
    (t0 : Z) (g : nat -> nat -> ndarray -> tensor) (n : nat) :
  hyperparams st !! "lr" = Some lr ->
  hyperparams st !! "t" = Some (PyInt t0) ->
  Forall (fun c : ndarray * (tensor * tensor) =>
            length c.2.1 = length (data c.1) /\ length c.2.2 = length (data c.1))
    (zip (params st) (states st)) ->
  (forall k i p, length (g k i p) = length (data p)) ->
  (train adam g 0 n st).1 = inr tt /\
  Forall2 shaped_as2 (zip (params st) (states st))
    (zip (params (train adam g 0 n st).2) (states (train adam g 0 n st).2)) /\
  hyperparams (train adam g 0 n st).2
    = <["t" := PyInt (t0 + Z.of_nat n)]> (hyperparams st).
Proof.
  intros Hlr Ht Hshape Hg.
  destruct (train_cells_rel adam
              (fun m => adam_cell (to_R lr) (t0 + Z.of_nat m)) g
              (fun m hp => hp = <["t" := PyInt (t0 + Z.of_nat m)]> (hyperparams st))
              (fun _ => same_shape2)
              (fun _ => shaped_as2)
              (fun _ c0 c => shaped_as2 c0 c /\
                 length (grad c.1) = length (data c0.1)))
    with (n := n) (k := 0%nat) (m := 0%nat) (st := st)
         (l0 := zip (params st) (states st)) as (H1 & H2 & H3).
  - intros st' m Hh Hs. by apply (adam_call (hyperparams st) lr t0 m st').
  - intros k m i c0 p s Hc. split; [exact Hc|]. simpl.
    destruct Hc as [Hd _]. simpl in Hd. by rewrite Hg.
  - intros m c0 [p [v s]] [(Hd & Hv & Hs) Hgr]. simpl in *.
    split; [unfold same_shape2; simpl; lia|].
    unfold shaped_as2, adam_cell. simpl.
    rewrite length_zip_with3, !length_zip_with; rewrite ?length_zip_with; lia.
  - simpl. rewrite Z.add_0_r. symmetry. by apply insert_id.
  - apply Forall_Forall2_diag. eapply Forall_impl; [exact Hshape|].
    intros c [Hv Hs]. by repeat split.
  - replace (n + 0)%nat with n in * by lia. auto.
Qed.

(** X13.  [adam] counts its calls: from a time step of at least 1, a run
    of [n] calls on gradients of the shapes of their parameters returns
    normally and leaves the dictionary with ['t'] increased by [n] and every
    other entry as it was.  (The time step stays one that converts to a
    float.) *)
Theorem adam_time_step_after_run (st : store (tensor * tensor)) (lr : pyval)
    (t0 : Z) (g : nat -> nat -> ndarray -> tensor) (n : nat) :
  hyperparams st !! "lr" = Some lr ->
  hyperparams st !! "t" = Some (PyInt t0) ->
  (1 <= t0)%Z -> convertible (PyInt (t0 + Z.of_nat n)) ->
  Forall (fun c : ndarray * (tensor * tensor) =>
            length c.2.1 = length (data c.1) /\ length c.2.2 = length (data c.1))
    (zip (params st) (states st)) ->
  (forall k i p, length (g k i p) = length (data p)) ->
  (train adam g 0 n st).1 = inr tt /\
  hyperparams (train adam g 0 n st).2
    = <["t" := PyInt (t0 + Z.of_nat n)]> (hyperparams st).
Proof.
  intros Hlr Ht _ _ Hshape Hg.
  destruct (adam_run st lr t0 g n Hlr Ht Hshape Hg) as (H1 & _ & H3). auto.
Qed.

Lemma adam_constant_element (lr c x : R) (m : nat) :
  adam_x lr (1 + Z.of_nat m) x
    (c * (1 - 0.9 ^ S m)) (c * c * (1 - 0.999 ^ S m))
  = x - lr * c / (Rabs c + 1e-6).
Proof.
  unfold adam_x, adam_v_hat, adam_s_hat.
  replace (1 + Z.of_nat m)%Z with (Z.of_nat (S m)) by lia.
  rewrite <- !pow_powerRZ.
  assert (0 <= 0.9 ^ S m < 1) by (apply pow_lt_1; [lra | lia]).
  assert (0 <= 0.999 ^ S m < 1) by (apply pow_lt_1; [lra | lia]).
  replace (c * (1 - 0.9 ^ S m) / (1 - 0.9 ^ S m)) with c by (field; lra).
  replace (c * c * (1 - 0.999 ^ S m) / (1 - 0.999 ^ S m)) with (Rsqr c)
    by (unfold Rsqr; field; lra).
  by rewrite sqrt_Rsqr_abs.
Qed.

(** X14.  Under a constant gradient [c], from zero states and time step
    1, the bias correction of [adam] is exact: after [n] calls the states
    are [c (1 - 0.9^n)] and [c^2 (1 - 0.999^n)], whose corrected values are
    [c] and [c^2], so that every call has moved every parameter element by
    the same [lr c / (|c| + 1e-6)]; the time step is [1 + n]. *)
Theorem adam_constant_gradient (st : store (tensor * tensor)) (lr : pyval)
    (c : R) (n : nat) :
  hyperparams st !! "lr" = Some lr ->
  hyperparams st !! "t" = Some (PyInt 1) ->
  Forall (fun pc : ndarray * (tensor * tensor) =>
            pc.2 = (zeros (length (data pc.1)), zeros (length (data pc.1))))
    (zip (params st) (states st)) ->
  (train adam (const_grad c) 0 n st).1 = inr tt /\
  Forall2 (fun pc0 pc : ndarray * (tensor * tensor) =>
             data pc.1
               = (fun x => x - INR n * (to_R lr * c / (Rabs c + 1e-6)))
                   <$> data pc0.1 /\
             pc.2 = (replicate (length (data pc0.1)) (c * (1 - 0.9 ^ n)),
                     replicate (length (data pc0.1)) (c * c * (1 - 0.999 ^ n))))
    (zip (params st) (states st))
    (zip (params (train adam (const_grad c) 0 n st).2)
         (states (train adam (const_grad c) 0 n st).2)) /\
  hyperparams (train adam (const_grad c) 0 n st).2
    = <["t" := PyInt (1 + Z.of_nat n)]> (hyperparams st).
Proof.
  intros Hlr Ht H0.
  set (delta := to_R lr * c / (Rabs c + 1e-6)).
  set (J := fun (m : nat) (pc0 pc : ndarray * (tensor * tensor)) =>
         data pc.1 = (fun x => x - INR m * delta) <$> data pc0.1 /\
         pc.2 = (replicate (length (data pc0.1)) (c * (1 - 0.9 ^ m)),
                 replicate (length (data pc0.1)) (c * c * (1 - 0.999 ^ m)))).
  destruct (train_cells_rel adam
              (fun m => adam_cell (to_R lr) (1 + Z.of_nat m)) (const_grad c)
              (fun m hp => hp = <["t" := PyInt (1 + Z.of_nat m)]> (hyperparams st))
              (fun _ => same_shape2)
              J
              (fun m pc0 pc => J m pc0 pc /\
                 grad pc.1 = replicate (length (data pc0.1)) c))
    with (n := n) (k := 0%nat) (m := 0%nat) (st := st)
         (l0 := zip (params st) (states st)) as (H1 & H2 & H3).
  - intros st' m Hh Hs. by apply (adam_call (hyperparams st) lr 1 m st').
  - intros k m i pc0 p s [Hd Hs]. split; [by split|]. simpl in *.
    unfold const_grad. by rewrite Hd, length_fmap.
  - intros m pc0 [p [v s]] [[Hd Hs] Hg]. simpl in *.
    inversion Hs; subst v s. clear Hs.
    assert (length (data p) = length (data pc0.1)) as Hl
      by (by rewrite Hd, length_fmap).
    split.
    { unfold same_shape2. simpl. rewrite Hg, !length_replicate. auto. }
    unfold J, adam_cell. simpl. rewrite Hg, !zip_with_replicate.
    assert (adam_v (c * (1 - 0.9 ^ m)) c = c * (1 - 0.9 * 0.9 ^ m)) as ->
      by (unfold adam_v; nra).
    assert (adam_s (c * c * (1 - 0.999 ^ m)) c = c * c * (1 - 0.999 * 0.999 ^ m))
      as -> by (unfold adam_s; nra).
    split; [|done].
    rewrite <- Hl, zip_with3_replicate, Hd, <- list_fmap_compose.
    apply list_fmap_ext. intros _ x _. simpl.
    change (0.9 * 0.9 ^ m) with (0.9 ^ S m).
    change (0.999 * 0.999 ^ m) with (0.999 ^ S m).
    rewrite adam_constant_element.
    change (match m with 0%nat => 1 | S _ => INR m + 1 end) with (INR (S m)).
    rewrite S_INR. fold delta. ring.
  - simpl. symmetry. by apply insert_id.
  - apply Forall_Forall2_diag. eapply Forall_impl; [exact H0|].
    intros [p [v s]] Hvs. simpl in *. unfold J. simpl. split.
    + rewrite <- (list_fmap_id (data p)) at 1. apply list_fmap_ext.
      intros; simpl. lra.
    + rewrite Hvs. unfold zeros. do 2 f_equal; f_equal; lra.
  - replace (n + 0)%nat with n in * by lia. done.
Qed.

(** * The toy two-dimensional runs *)

(** ** Plain gradient descent *)

Lemma gd_2d_run (x1 x2 s1 s2 : R) (eta : pyval) (G : gmap string pyval) :
  G !! "eta" = Some eta ->
  gd_2d x1 x2 s1 s2 G
  = (inr (x1 - to_R eta * 0.2 * x1, x2 - to_R eta * 4 * x2, 0, 0), G).
Proof.
  intros He. unfold gd_2d, bind, global, ret.
  repeat (rewrite ?He; simpl). reflexivity.
Qed.

(** X15.  With a learning rate in [(0, 0.5)] a step of [gd_2d] decreases
    the objective [f_2d], strictly unless the point is the minimum
    [(0, 0)]; it returns zero states and does not read the states it is
    given. *)
Theorem gd_2d_decreases_objective (x1 x2 s1 s2 : R) (eta : pyval)
    (G : gmap string pyval) :
  G !! "eta" = Some eta -> 0 < to_R eta < 0.5 ->
  exists x1' x2',
    gd_2d x1 x2 s1 s2 G = (inr (x1', x2', 0, 0), G) /\
    0 <= f_2d x1' x2' <= f_2d x1 x2 /\
    (f_2d x1' x2' = f_2d x1 x2 -> x1 = 0 /\ x2 = 0).
Proof.
  intros He Hr. eexists _, _. split; [by apply gd_2d_run|].
  set (e := to_R eta) in *. unfold f_2d.
  replace (x1 - e * 0.2 * x1) with ((1 - 0.2 * e) * x1) by ring.
  replace (x2 - e * 4 * x2) with ((1 - 4 * e) * x2) by ring.
  assert (0 <= x1 ^ 2) as H1 by (simpl; nra).
  assert (0 <= x2 ^ 2) as H2 by (simpl; nra).
  assert (forall b, -1 < b < 1 -> 0 <= b ^ 2 < 1) as Hsq.
  { intros b Hb. simpl.
    pose proof (Rmult_lt_0_compat (1 - b) (1 + b)). nra. }
  assert (0 <= (1 - 0.2 * e) ^ 2 < 1) as Ha by (apply Hsq; lra).
  assert (0 <= (1 - 4 * e) ^ 2 < 1) as Hb by (apply Hsq; lra).
  rewrite !Rpow_mult_distr.
  assert (0 <= (1 - 0.2 * e) ^ 2 * x1 ^ 2 <= x1 ^ 2) as H3 by nra.
  assert (0 <= (1 - 4 * e) ^ 2 * x2 ^ 2 <= x2 ^ 2) as H4 by nra.
  split; [lra|].
  intros Heq.
  assert (x1 ^ 2 = 0) as E1 by nra.
  assert (x2 ^ 2 = 0) as E2 by nra.
  split; [simpl in E1 | simpl in E2]; nra.
Qed.

Lemma trace_2d_gd (eta : pyval) (G : gmap string pyval) (n : nat)
    (x1 x2 s1 s2 : R) :
  G !! "eta" = Some eta ->
  trace_2d gd_2d n x1 x2 s1 s2 G
  = (inr ((fun k => ((1 - 0.2 * to_R eta) ^ S k * x1,
                     (1 - 4 * to_R eta) ^ S k * x2)) <$> seq 0 n), G).
Proof.
  intros He. revert x1 x2 s1 s2.
  induction n as [|n IH]; intros x1 x2 s1 s2; [reflexivity|].
  cbn [trace_2d]. unfold bind.
  rewrite (gd_2d_run _ _ _ _ eta G He).
  rewrite IH. unfold ret. do 2 f_equal.
  cbn [seq fmap list_fmap]. f_equal.
  - f_equal; simpl; ring.
  - rewrite <- fmap_S_seq, <- list_fmap_compose.
    apply list_fmap_ext. intros _ k _. simpl. f_equal; ring.
Qed.

(** X16.  The trajectory of [gd_2d] in closed form: the point after [k]
    steps is the start point with its first coordinate multiplied by
    [(1 - 0.2 eta)^k] and its second by [(1 - 4 eta)^k]. *)
Theorem gd_2d_trajectory (eta : pyval) (G : gmap string pyval) (steps : nat)
    (start : R * R) :
  G !! "eta" = Some eta ->
  train_2d gd_2d steps start G
  = (inr ((fun k => ((1 - 0.2 * to_R eta) ^ k * start.1,
                     (1 - 4 * to_R eta) ^ k * start.2)) <$> seq 0 (S steps)), G).
Proof.
  intros He. unfold train_2d, bind.
  rewrite (trace_2d_gd eta G steps _ _ _ _ He). unfold ret.
  do 2 f_equal. cbn [seq fmap list_fmap]. f_equal.
  - destruct start as [x1 x2]. simpl. f_equal; ring.
  - by rewrite <- fmap_S_seq, <- list_fmap_compose.
Qed.

(** X17.  With a learning rate above 0.5, as the 0.6 of the notebook, the
    trajectory of [gd_2d] diverges in its second coordinate: from a start
    point off the axis it passes every bound. *)
Theorem gd_2d_diverges (eta : pyval) (G : gmap string pyval) (start : R * R)
    (B : R) :
  G !! "eta" = Some eta -> 0.5 < to_R eta -> start.2 <> 0 ->
  exists steps pts pt,
    train_2d gd_2d steps start G = (inr pts, G) /\
    pts !! steps = Some pt /\ B < Rabs pt.2.
Proof.
  intros He Hr Hs.
  destruct (Pow_x_infinity (1 - 4 * to_R eta)) with (b := (Rabs B + 1) / Rabs start.2)
    as [N HN].
  { rewrite Rabs_left; lra. }
  exists N, ((fun k => ((1 - 0.2 * to_R eta) ^ k * start.1,
                        (1 - 4 * to_R eta) ^ k * start.2)) <$> seq 0 (S N)),
    ((1 - 0.2 * to_R eta) ^ N * start.1, (1 - 4 * to_R eta) ^ N * start.2).
  split.
  { unfold train_2d, bind.
    rewrite (trace_2d_gd eta G N _ _ _ _ He). unfold ret.
    do 2 f_equal. cbn [seq fmap list_fmap]. f_equal.
    - destruct start as [x1 x2]. simpl. f_equal; ring.
    - by rewrite <- fmap_S_seq, <- list_fmap_compose. }
  split.
  { rewrite list_lookup_fmap, lookup_seq_lt by lia. reflexivity. }
  simpl. rewrite Rabs_mult.
  specialize (HN N (Nat.le_refl N)).
  assert (0 < Rabs start.2) as Hp by (by apply Rabs_pos_lt).
  assert (Rabs B + 1 <= Rabs ((1 - 4 * to_R eta) ^ N) * Rabs start.2) as H.
  { replace (Rabs B + 1) with ((Rabs B + 1) / Rabs start.2 * Rabs start.2)
      by (field; lra).
    apply Rmult_le_compat_r; lra. }
  pose proof (Rle_abs B). lra.
Qed.

(** ** Momentum *)

(** X18.  With the global [gamma] at 0 the trajectory of [momentum_2d] is
    the trajectory of [gd_2d], for every learning rate, start point and
    number of steps. *)
Theorem momentum_2d_without_momentum_is_gd_2d (eta gamma : pyval)
    (G : gmap string pyval) (steps : nat) (start : R * R) :
  G !! "eta" = Some eta -> G !! "gamma" = Some gamma -> to_R gamma = 0 ->
  train_2d momentum_2d steps start G = train_2d gd_2d steps start G.
Proof.
  intros He Hg H0.
  assert (forall n x1 x2 v1 v2 s1 s2,
            trace_2d momentum_2d n x1 x2 v1 v2 G
            = trace_2d gd_2d n x1 x2 s1 s2 G) as H.
  { induction n as [|n IH]; intros x1 x2 v1 v2 s1 s2; [reflexivity|].
    cbn [trace_2d]. unfold bind.
    rewrite (momentum_2d_run _ _ _ _ eta gamma G He Hg).
    rewrite (gd_2d_run _ _ _ _ eta G He). rewrite H0.
    replace (0 * v1 + to_R eta * 0.2 * x1) with (to_R eta * 0.2 * x1) by ring.
    replace (0 * v2 + to_R eta * 4 * x2) with (to_R eta * 4 * x2) by ring.
    by rewrite (IH _ _ _ _ 0 0). }
  unfold train_2d, bind. by rewrite (H steps _ _ 0 0 0 0).
Qed.

Lemma momentum_form_step (h eta gamma x v : R) :
  momentum_form h eta gamma (x - (gamma * v + eta * h * x)) (gamma * v + eta * h * x)
  = gamma * momentum_form h eta gamma x v.
Proof. unfold momentum_form. ring. Qed.

Lemma momentum_form_bound (h eta gamma x v : R) :
  (4 * eta * h * gamma - (gamma - 1 + eta * h) ^ 2) * x ^ 2
  <= 4 * gamma * momentum_form h eta gamma x v.
Proof.
  unfold momentum_form.
  assert (4 * gamma * (eta * h * x ^ 2 + (gamma - 1 + eta * h) * x * v + gamma * v ^ 2)
          - (4 * eta * h * gamma - (gamma - 1 + eta * h) ^ 2) * x ^ 2
          = (2 * gamma * v + (gamma - 1 + eta * h) * x) ^ 2) as E by ring.
  pose proof (pow2_ge_0 (2 * gamma * v + (gamma - 1 + eta * h) * x)).
  lra.
Qed.

Lemma trace_2d_momentum_bound (eta gamma : pyval) (G : gmap string pyval)
    (n : nat) (x1 x2 v1 v2 : R) :
  G !! "eta" = Some eta -> G !! "gamma" = Some gamma ->
  exists pts,
    trace_2d momentum_2d n x1 x2 v1 v2 G = (inr pts, G) /\
    forall k y1 y2, pts !! k = Some (y1, y2) ->
      momentum_bound_at 0.2 (to_R eta) (to_R gamma) (S k) y1
        (momentum_form 0.2 (to_R eta) (to_R gamma) x1 v1) /\
      momentum_bound_at 4 (to_R eta) (to_R gamma) (S k) y2
        (momentum_form 4 (to_R eta) (to_R gamma) x2 v2).
Proof.
  intros He Hg. revert x1 x2 v1 v2.
  induction n as [|n IH]; intros x1 x2 v1 v2.
  - exists []. split; [reflexivity|]. intros k y1 y2 Hk. by destruct k.
  - set (e := to_R eta) in *. set (c := to_R gamma) in *.
    destruct (IH (x1 - (c * v1 + e * 0.2 * x1)) (x2 - (c * v2 + e * 4 * x2))
                 (c * v1 + e * 0.2 * x1) (c * v2 + e * 4 * x2))
      as (pts & Hpts & Hb).
    eexists (_ :: pts). split.
    { cbn [trace_2d]. unfold bind.
      rewrite (momentum_2d_run _ _ _ _ eta gamma G He Hg).
      fold e c. rewrite Hpts. reflexivity. }
    intros [|k] y1 y2 Hk.
    + inversion Hk; subst y1 y2. unfold momentum_bound_at.
      pose proof (momentum_form_bound 0.2 e c (x1 - (c * v1 + e * 0.2 * x1))
                    (c * v1 + e * 0.2 * x1)) as B1.
      pose proof (momentum_form_bound 4 e c (x2 - (c * v2 + e * 4 * x2))
                    (c * v2 + e * 4 * x2)) as B2.
      rewrite momentum_form_step in B1, B2. simpl. split; lra.
    + destruct (Hb k y1 y2 Hk) as [B1 B2]. unfold momentum_bound_at in *.
      rewrite momentum_form_step in B1, B2.
      change (c ^ S (S k)) with (c * c ^ S k).
      split; lra.
Qed.

(** X19.  Each step of [momentum_2d] multiplies a quadratic form of
    position and velocity by [gamma], in each coordinate.  Hence after [k]
    steps from rest every coordinate [x] of curvature [h] satisfies
    [(4 eta h gamma - (gamma - 1 + eta h)^2) x^2 <= 4 eta h gamma^(k+1) x0^2]:
    where the first factor is positive and [gamma < 1], as for
    [eta = 0.6] and [gamma = 0.5], the trajectory converges to the minimum
    although plain gradient descent diverges at that learning rate. *)
Theorem momentum_2d_trajectory_bound (eta gamma : pyval) (G : gmap string pyval)
    (steps : nat) (start : R * R) :
  G !! "eta" = Some eta -> G !! "gamma" = Some gamma ->
  exists pts,
    train_2d momentum_2d steps start G = (inr pts, G) /\
    forall k y1 y2, pts !! k = Some (y1, y2) ->
      (4 * to_R eta * 0.2 * to_R gamma - (to_R gamma - 1 + to_R eta * 0.2) ^ 2)
        * y1 ^ 2
      <= 4 * to_R eta * 0.2 * to_R gamma ^ S k * start.1 ^ 2 /\
      (4 * to_R eta * 4 * to_R gamma - (to_R gamma - 1 + to_R eta * 4) ^ 2)
        * y2 ^ 2
      <= 4 * to_R eta * 4 * to_R gamma ^ S k * start.2 ^ 2.
Proof.
  intros He Hg. destruct start as [x1 x2].
  destruct (trace_2d_momentum_bound eta gamma G steps x1 x2 0 0 He Hg)
    as (pts & Hpts & Hb).
  exists ((x1, x2) :: pts). split.
  { unfold train_2d, bind. simpl. by rewrite Hpts. }
  set (e := to_R eta) in *. set (c := to_R gamma) in *.
  intros [|k] y1 y2 Hk; simpl fst; simpl snd.
  - inversion Hk; subst y1 y2.
    pose proof (pow2_ge_0 ((c - 1 + e * 0.2) * x1)) as H1.
    pose proof (pow2_ge_0 ((c - 1 + e * 4) * x2)) as H2.
    rewrite Rpow_mult_distr in H1, H2.
    rewrite pow_1. split; lra.
  - destruct (Hb k y1 y2 Hk) as [B1 B2]. unfold momentum_bound_at in *.
    assert (forall h x, momentum_form h e c x 0 = e * h * x ^ 2) as E
      by (intros; unfold momentum_form; ring).
    rewrite E in B1, B2.
    change (c ^ S (S k)) with (c * c ^ S k).
    split; lra.
Qed.
(** ** The toy steps of Adagrad and RMSProp *)

Lemma adagrad_2d_run (x1 x2 s1 s2 : R) (eta : pyval) (G : gmap string pyval) :
  G !! "eta" = Some eta ->
  0 < s1 + (0.2 * x1) ^ 2 + 1e-6 -> 0 < s2 + (4 * x2) ^ 2 + 1e-6 ->
  adagrad_2d x1 x2 s1 s2 G
  = (inr (x1 - to_R eta / sqrt (s1 + (0.2 * x1) ^ 2 + 1e-6) * (0.2 * x1),
          x2 - to_R eta / sqrt (s2 + (4 * x2) ^ 2 + 1e-6) * (4 * x2),
          s1 + (0.2 * x1) ^ 2, s2 + (4 * x2) ^ 2), G).
Proof.
  intros He H1 H2.
  pose proof (sqrt_lt_R0 _ H1). pose proof (sqrt_lt_R0 _ H2).
  unfold adagrad_2d, bindX, plain, global, math_sqrt, float_div, retX.
  cbv zeta beta iota. rewrite He. cbv beta iota.
  destruct (Rlt_dec (s1 + (0.2 * x1) ^ 2 + 1e-6) 0); [lra|].
  destruct (Req_dec_T (sqrt (s1 + (0.2 * x1) ^ 2 + 1e-6)) 0); [lra|].
  rewrite He. cbv beta iota.
  destruct (Rlt_dec (s2 + (4 * x2) ^ 2 + 1e-6) 0); [lra|].
  destruct (Req_dec_T (sqrt (s2 + (4 * x2) ^ 2 + 1e-6)) 0); [lra|].
  reflexivity.
Qed.

Lemma rmsprop_2d_run (x1 x2 s1 s2 : R) (eta gamma : pyval) (G : gmap string pyval) :
  G !! "eta" = Some eta -> G !! "gamma" = Some gamma ->
  0 < to_R gamma * s1 + (1 - to_R gamma) * (0.2 * x1) ^ 2 + 1e-6 ->
  0 < to_R gamma * s2 + (1 - to_R gamma) * (4 * x2) ^ 2 + 1e-6 ->
  rmsprop_2d x1 x2 s1 s2 G
  = (inr (x1 - to_R eta
               / sqrt (to_R gamma * s1 + (1 - to_R gamma) * (0.2 * x1) ^ 2 + 1e-6)
               * (0.2 * x1),
          x2 - to_R eta
               / sqrt (to_R gamma * s2 + (1 - to_R gamma) * (4 * x2) ^ 2 + 1e-6)
               * (4 * x2),
          to_R gamma * s1 + (1 - to_R gamma) * (0.2 * x1) ^ 2,
          to_R gamma * s2 + (1 - to_R gamma) * (4 * x2) ^ 2), G).
Proof.
  intros He Hg H1 H2.
  pose proof (sqrt_lt_R0 _ H1). pose proof (sqrt_lt_R0 _ H2).
  unfold rmsprop_2d, bindX, plain, global, math_sqrt, float_div, retX.
  cbv zeta beta iota. do 4 (rewrite Hg; cbv beta iota).
  rewrite He. cbv beta iota.
  set (c := to_R gamma) in *.
  destruct (Rlt_dec (c * s1 + (1 - c) * (0.2 * x1) ^ 2 + 1e-6) 0); [lra|].
  destruct (Req_dec_T (sqrt (c * s1 + (1 - c) * (0.2 * x1) ^ 2 + 1e-6)) 0); [lra|].
  rewrite He. cbv beta iota.
  destruct (Rlt_dec (c * s2 + (1 - c) * (4 * x2) ^ 2 + 1e-6) 0); [lra|].
  destruct (Req_dec_T (sqrt (c * s2 + (1 - c) * (4 * x2) ^ 2 + 1e-6)) 0); [lra|].
  reflexivity.
Qed.

Lemma toy_step_bound (k eta g a x : R) :
  0 <= k -> k * (g * g) <= a ->
  sqrt k * Rabs (x - eta / sqrt (a + 1e-6) * g - x) <= Rabs eta.
Proof.
  intros Hk Ha.
  replace (x - eta / sqrt (a + 1e-6) * g - x)
    with (- (eta * g / sqrt (a + 1e-6))) by (unfold Rdiv; ring).
  rewrite Rabs_Ropp. apply scaled_step_bound; auto. lra.
Qed.

Lemma toy_step_direction (eta g r x : R) :
  0 < r -> 0 <= (x - (x - eta / r * g)) * (eta * g).
Proof.
  intros Hr.
  replace ((x - (x - eta / r * g)) * (eta * g)) with ((eta * g) ^ 2 * / r)
    by (unfold Rdiv; ring).
  apply Rmult_le_pos; [apply pow2_ge_0|].
  left. by apply Rinv_0_lt_compat.
Qed.

(** X20.  From accumulators that are not negative (as they are from the
    start at zero), and where the squares of the gradients are floats,
    [adagrad_2d] never raises: it returns with accumulators that have not
    decreased, leaves the globals as they were, has moved each coordinate
    by at most [|eta|], and against the gradient for a positive [eta]. *)
Theorem adagrad_2d_from_nonnegative_accumulators (x1 x2 s1 s2 : R)
    (eta : pyval) (G : gmap string pyval) :
  G !! "eta" = Some eta -> convertible eta ->
  coordinate_sized x1 -> coordinate_sized x2 ->
  float_sized s1 -> float_sized s2 ->
  0 <= s1 -> 0 <= s2 ->
  exists x1' x2' s1' s2',
    adagrad_2d x1 x2 s1 s2 G = (inr (x1', x2', s1', s2'), G) /\
    s1 <= s1' /\ s2 <= s2' /\
    Rabs (x1' - x1) <= Rabs (to_R eta) /\ Rabs (x2' - x2) <= Rabs (to_R eta) /\
    0 <= (x1 - x1') * (to_R eta * (0.2 * x1)) /\
    0 <= (x2 - x2') * (to_R eta * (4 * x2)).
Proof.
  intros He _ _ _ _ _ H1 H2.
  pose proof (pow2_ge_0 (0.2 * x1)) as G1. pose proof (pow2_ge_0 (4 * x2)) as G2.
  eexists _, _, _, _. split; [apply (adagrad_2d_run _ _ _ _ eta); auto; lra|].
  split; [lra|]. split; [lra|].
  assert (sqrt 1 = 1) as S1 by apply sqrt_1.
  split; [|split; [|split]].
  - pose proof (toy_step_bound 1 (to_R eta) (0.2 * x1) (s1 + (0.2 * x1) ^ 2) x1) as B.
    rewrite S1 in B. specialize (B ltac:(lra) ltac:(lra)). lra.
  - pose proof (toy_step_bound 1 (to_R eta) (4 * x2) (s2 + (4 * x2) ^ 2) x2) as B.
    rewrite S1 in B. specialize (B ltac:(lra) ltac:(lra)). lra.
  - apply toy_step_direction. apply sqrt_lt_R0. lra.
  - apply toy_step_direction. apply sqrt_lt_R0. lra.
Qed.


(** X22.  [adagrad_2d] is [adagrad] on the two coordinates: on the one
    parameter [(x1, x2)] with the gradient [(0.2 x1, 4 x2)] of [f_2d], the
    accumulator [(s1, s2)] and the learning rate [eta], [adagrad] writes
    the values that [adagrad_2d] returns. *)
Theorem adagrad_2d_refines_adagrad (x1 x2 s1 s2 : R) (eta : pyval)
    (G hp : gmap string pyval) :
  G !! "eta" = Some eta -> hp !! "lr" = Some eta -> 0 <= s1 -> 0 <= s2 ->
  exists x1' x2' s1' s2',
    adagrad_2d x1 x2 s1 s2 G = (inr (x1', x2', s1', s2'), G) /\
    adagrad (Store [NDArray [x1; x2] [0.2 * x1; 4 * x2]] [[s1; s2]] hp)
      = (inr tt, Store [NDArray [x1'; x2'] [0.2 * x1; 4 * x2]] [[s1'; s2']] hp).
Proof.
  intros He Hlr H1 H2.
  pose proof (pow2_ge_0 (0.2 * x1)) as G1. pose proof (pow2_ge_0 (4 * x2)) as G2.
  eexists _, _, _, _. split; [apply (adagrad_2d_run _ _ _ _ eta); auto; lra|].
  unfold adagrad, loop. simpl.
  rewrite (adagrad_body_ok _ hp eta); auto; [|by split].
  unfold adagrad_cell, zip_with3. simpl.
  replace (0.2 * x1 * (0.2 * x1 * 1)) with (0.2 * x1 * (0.2 * x1)) by ring.
  replace (4 * x2 * (4 * x2 * 1)) with (4 * x2 * (4 * x2)) by ring.
  unfold Rdiv. by rewrite !(Rmult_assoc (to_R eta)), !(Rmult_comm (/ _)).
Qed.

(** X23.  With [gamma] in [[0, 1]], from accumulators that are not
    negative, and where the squares of the gradients are floats,
    [rmsprop_2d] never raises: each new accumulator lies between
    the old one and the squared gradient, so it is not negative either, and
    each coordinate moves by at most [|eta| / sqrt (1 - gamma)], against the
    gradient for a positive [eta]. *)
Theorem rmsprop_2d_from_nonnegative_accumulators (x1 x2 s1 s2 : R)
    (eta gamma : pyval) (G : gmap string pyval) :
  G !! "eta" = Some eta -> G !! "gamma" = Some gamma ->
  convertible eta ->
  coordinate_sized x1 -> coordinate_sized x2 ->
  float_sized s1 -> float_sized s2 ->
  0 <= to_R gamma <= 1 -> 0 <= s1 -> 0 <= s2 ->
  exists x1' x2' s1' s2',
    rmsprop_2d x1 x2 s1 s2 G = (inr (x1', x2', s1', s2'), G) /\
    Rmin s1 ((0.2 * x1) ^ 2) <= s1' <= Rmax s1 ((0.2 * x1) ^ 2) /\
    Rmin s2 ((4 * x2) ^ 2) <= s2' <= Rmax s2 ((4 * x2) ^ 2) /\
    sqrt (1 - to_R gamma) * Rabs (x1' - x1) <= Rabs (to_R eta) /\
    sqrt (1 - to_R gamma) * Rabs (x2' - x2) <= Rabs (to_R eta) /\
    0 <= (x1 - x1') * (to_R eta * (0.2 * x1)) /\
    0 <= (x2 - x2') * (to_R eta * (4 * x2)).
Proof.
  intros He Hg _ _ _ _ _ Hc H1 H2.
  pose proof (pow2_ge_0 (0.2 * x1)) as G1. pose proof (pow2_ge_0 (4 * x2)) as G2.
  set (c := to_R gamma) in *.
  assert (0 <= c * s1 + (1 - c) * (0.2 * x1) ^ 2) as P1 by nra.
  assert (0 <= c * s2 + (1 - c) * (4 * x2) ^ 2) as P2 by nra.
  eexists _, _, _, _. split; [apply (rmsprop_2d_run _ _ _ _ eta gamma); auto; fold c; lra|].
  fold c.
  split.
  { unfold Rmin, Rmax. destruct (Rle_dec s1 ((0.2 * x1) ^ 2)); split; nra. }
  split.
  { unfold Rmin, Rmax. destruct (Rle_dec s2 ((4 * x2) ^ 2)); split; nra. }
  split; [|split; [|split]].
  - apply toy_step_bound; [lra|]. simpl. nra.
  - apply toy_step_bound; [lra|]. simpl. nra.
  - apply toy_step_direction. apply sqrt_lt_R0. lra.
  - apply toy_step_direction. apply sqrt_lt_R0. lra.
Qed.

(** X24.  [rmsprop_2d] is [rmsprop] on the two coordinates: on the one
    parameter [(x1, x2)] with the gradient [(0.2 x1, 4 x2)] of [f_2d], the
    accumulator [(s1, s2)], the learning rate [eta] and the same [gamma],
    [rmsprop] writes the values that [rmsprop_2d] returns. *)
Theorem rmsprop_2d_refines_rmsprop (x1 x2 s1 s2 : R) (eta gamma : pyval)
    (G hp : gmap string pyval) :
  G !! "eta" = Some eta -> G !! "gamma" = Some gamma ->
  hp !! "lr" = Some eta -> hp !! "gamma" = Some gamma ->
  0 <= to_R gamma <= 1 -> 0 <= s1 -> 0 <= s2 ->
  exists x1' x2' s1' s2',
    rmsprop_2d x1 x2 s1 s2 G = (inr (x1', x2', s1', s2'), G) /\
    rmsprop (Store [NDArray [x1; x2] [0.2 * x1; 4 * x2]] [[s1; s2]] hp)
      = (inr tt, Store [NDArray [x1'; x2'] [0.2 * x1; 4 * x2]] [[s1'; s2']] hp).
Proof.
  intros He Hg Hlr Hgam Hc H1 H2.
  pose proof (pow2_ge_0 (0.2 * x1)) as G1. pose proof (pow2_ge_0 (4 * x2)) as G2.
  eexists _, _, _, _. split.
  { apply (rmsprop_2d_run _ _ _ _ eta gamma); auto; nra. }
  rewrite (rmsprop_unfold _ gamma) by exact Hgam.
  unfold loop. simpl.
  rewrite (rmsprop_body_ok _ _ hp eta); auto; [|by split].
  unfold rmsprop_cell, zip_with3, ewma. simpl.
  replace (0.2 * x1 * (0.2 * x1 * 1)) with (0.2 * x1 * (0.2 * x1)) by ring.
  replace (4 * x2 * (4 * x2 * 1)) with (4 * x2 * (4 * x2)) by ring.
  unfold Rdiv. by rewrite !(Rmult_assoc (to_R eta)), !(Rmult_comm (/ _)).
Qed.

(** ** What a rule reads of the dictionary *)

Lemma for_zip_ext {P S} (b b' : M (P * S) unit) (ps : list P) (ss : list S) :
  (forall c, b c = b' c) -> for_zip b ps ss = for_zip b' ps ss.
Proof.
  intros H. revert ss.
  induction ps as [|p ps IH]; intros [|s ss]; simpl; auto.
  rewrite H. destruct (b' (p, s)) as [[e|u] [p' s']]; auto. by rewrite IH.
Qed.

Lemma loop_ext {S} (body : gmap string pyval -> M (ndarray * S) unit)
    (ps : list ndarray) (ss : list S) (hp hp' : gmap string pyval) :
  (forall c, body hp' c = body hp c) ->
  same_outcome (loop body (Store ps ss hp')) (loop body (Store ps ss hp)).
Proof.
  intros H. unfold loop. simpl. rewrite (for_zip_ext _ _ _ _ H).
  by destruct (for_zip (body hp) ps ss) as [r [ps' ss']].
Qed.

(** X26.  A rule reads its own keys of the dictionary and no other: two
    dictionaries that agree on ['lr'], and on ['momentum'], ['gamma'] or
    ['t'] for the rule that reads it, give the same outcome, parameters and
    states, whatever else they hold. *)
Theorem rules_read_only_their_keys (ps : list ndarray) (ss : list tensor)
    (ss2 : list (tensor * tensor)) (hp hp' : gmap string pyval) :
  hp' !! "lr" = hp !! "lr" ->
  (hp' !! "momentum" = hp !! "momentum" ->
   same_outcome (sgd_momentum (Store ps ss hp')) (sgd_momentum (Store ps ss hp))) /\
  same_outcome (adagrad (Store ps ss hp')) (adagrad (Store ps ss hp)) /\
  (hp' !! "gamma" = hp !! "gamma" ->
   same_outcome (rmsprop (Store ps ss hp')) (rmsprop (Store ps ss hp))) /\
  (hp' !! "t" = hp !! "t" ->
   same_outcome (adam (Store ps ss2 hp')) (adam (Store ps ss2 hp))).
Proof.
  intros Hlr.
  split; [|split; [|split]].
  - intros Hm. apply loop_ext. intros c.
    unfold sgd_momentum_body, bind, getitem. by rewrite Hm, Hlr.
  - apply loop_ext. intros c.
    unfold adagrad_body, bind, getitem. by rewrite Hlr.
  - intros Hg. unfold rmsprop, bind, hp_get, getitem. simpl. rewrite Hg.
    destruct (hp !! "gamma") as [gamma|]; [|done].
    unfold ret. apply loop_ext. intros c.
    unfold rmsprop_body, bind, getitem. by rewrite Hlr.
  - intros Ht.
    destruct (adam_params_states (Store ps ss2 hp')) as [Hp' Hs'].
    destruct (adam_params_states (Store ps ss2 hp)) as [Hp Hs].
    destruct (loop_ext (adam_body 0.9 0.999 1e-6) ps ss2 hp hp') as (Hr & Hps & Hss).
    { intros c. unfold adam_body, bind, getitem. by rewrite Ht, Hlr. }
    split; [|split; congruence].
    rewrite !adam_unfold. cbv zeta. simpl. rewrite Hr, Ht.
    destruct (loop (adam_body 0.9 0.999 1e-6) (Store ps ss2 hp)).1; [done|].
    by destruct (hp !! "t").
Qed.

(** ** Runs from the initial states *)

(** A run of a rule that applies [f] to every pair and keeps shapes. *)
Lemma train_shaped (rule : M (store tensor) unit)
    (f : ndarray * tensor -> ndarray * tensor)
    (Pre : gmap string pyval -> Prop) (g : nat -> nat -> ndarray -> tensor) :
  (forall st, hyperparams (rule st).2 = hyperparams st) ->
  (forall st, Pre (hyperparams st) -> well_shaped st ->
     (rule st).1 = inr tt /\
     zip (params (rule st).2) (states (rule st).2)
       = f <$> zip (params st) (states st)) ->
  (forall c, same_shape c ->
     length (data (f c).1) = length (data c.1) /\ length (f c).2 = length c.2) ->
  (forall k i p, length (g k i p) = length (data p)) ->
  forall n st,
    Pre (hyperparams st) ->
    Forall (fun c : ndarray * tensor => length c.2 = length (data c.1))
      (zip (params st) (states st)) ->
    (train rule g 0 n st).1 = inr tt /\
    Forall2 shaped_as (zip (params st) (states st))
      (zip (params (train rule g 0 n st).2) (states (train rule g 0 n st).2)).
Proof.
  intros Hh Hrule Hf Hg n st HPre Hshape.
  destruct (train_cells_rel rule (fun _ => f) g (fun _ => Pre)
              (fun _ => same_shape) (fun _ => shaped_as)
              (fun _ c0 c => shaped_as c0 c /\
                 length (grad c.1) = length (data c0.1)))
    with (n := n) (k := 0%nat) (m := 0%nat) (st := st)
         (l0 := zip (params st) (states st)) as (H1 & H2 & _).
  - intros st' m HP Hs. destruct (Hrule st' HP Hs) as [Hr Hz].
    repeat split; auto. by rewrite Hh.
  - intros k m i c0 p s Hc. split; [exact Hc|]. simpl.
    destruct Hc as [Hd _]. simpl in Hd. by rewrite Hg.
  - intros m c0 c [[Hd Hs] Hgr].
    assert (same_shape c) as Hc by (unfold same_shape; lia).
    split; [exact Hc|]. destruct (Hf c Hc) as [Hd' Hs'].
    unfold shaped_as. lia.
  - exact HPre.
  - apply Forall_Forall2_diag. eapply Forall_impl; [exact Hshape|].
    intros c Hc. by split.
  - replace (n + 0)%nat with n in * by lia. auto.
Qed.

(** X27.  The states that [init_momentum_states], [init_adagrad_states],
    [init_rmsprop_states] and [init_adam_states] build for [d] features fit
    a weight of [d] elements and a bias of one: a run of any number of calls
    from them, on gradients of the shapes of the parameters, returns
    normally with every parameter and state of the shape it had; for
    [adam], from a time step of at least 1 that stays one that converts to
    a float. *)
Theorem runs_from_initial_states (d : nat) (w b : ndarray)
    (hp : gmap string pyval) (lr : pyval)
    (g : nat -> nat -> ndarray -> tensor) (n : nat) :
  length (data w) = d -> length (data b) = 1%nat ->
  (forall k i p, length (g k i p) = length (data p)) ->
  hp !! "lr" = Some lr ->
  (forall momentum, hp !! "momentum" = Some momentum ->
     let st := Store [w; b] (init_momentum_states d) hp in
     (train sgd_momentum g 0 n st).1 = inr tt /\
     Forall2 shaped_as (zip (params st) (states st))
       (zip (params (train sgd_momentum g 0 n st).2)
            (states (train sgd_momentum g 0 n st).2))) /\
  (let st := Store [w; b] (init_adagrad_states d) hp in
   (train adagrad g 0 n st).1 = inr tt /\
   Forall2 shaped_as (zip (params st) (states st))
     (zip (params (train adagrad g 0 n st).2)
          (states (train adagrad g 0 n st).2))) /\
  (forall gamma, hp !! "gamma" = Some gamma ->
     let st := Store [w; b] (init_rmsprop_states d) hp in
     (train rmsprop g 0 n st).1 = inr tt /\
     Forall2 shaped_as (zip (params st) (states st))
       (zip (params (train rmsprop g 0 n st).2)
            (states (train rmsprop g 0 n st).2))) /\
  (forall t, hp !! "t" = Some (PyInt t) ->
     (1 <= t)%Z -> convertible (PyInt (t + Z.of_nat n)) ->
     let st := Store [w; b] (init_adam_states d) hp in
     (train adam g 0 n st).1 = inr tt /\
     Forall2 shaped_as2 (zip (params st) (states st))
       (zip (params (train adam g 0 n st).2)
            (states (train adam g 0 n st).2))).
Proof.
  intros Hw Hb Hg Hlr.
  assert (Forall (fun c : ndarray * tensor => length c.2 = length (data c.1))
            (zip [w; b] [zeros d; zeros 1])) as Hshape.
  { repeat constructor; cbv [zeros]; simpl; rewrite ?length_replicate; lia. }
  split; [|split; [|split]].
  - intros momentum Hm st.
    apply (train_shaped sgd_momentum (momentum_cell (to_R momentum) (to_R lr))
             (fun h => h !! "momentum" = Some momentum /\ h !! "lr" = Some lr));
      auto.
    + apply sgd_momentum_hyperparams.
    + intros st' [Hm' Hlr'] Hs. by apply sgd_momentum_ok.
    + intros [p s] [H1 H2]. unfold momentum_cell. simpl in *.
      rewrite !length_zip_with. lia.
  - intros st.
    apply (train_shaped adagrad (adagrad_cell 1e-6 (to_R lr))
             (fun h => h !! "lr" = Some lr)); auto.
    + apply adagrad_hyperparams.
    + intros st' Hlr' Hs. by apply adagrad_ok.
    + intros [p s] [H1 H2]. unfold adagrad_cell. simpl in *.
      rewrite length_zip_with3, !length_zip_with; rewrite ?length_zip_with; lia.
  - intros gamma Hgam st.
    apply (train_shaped rmsprop (rmsprop_cell (to_R gamma) 1e-6 (to_R lr))
             (fun h => h !! "gamma" = Some gamma /\ h !! "lr" = Some lr)); auto.
    + apply rmsprop_hyperparams.
    + intros st' [Hg' Hlr'] Hs. by apply rmsprop_ok.
    + intros [p s] [H1 H2]. unfold rmsprop_cell. simpl in *.
      rewrite length_zip_with3, !length_zip_with; rewrite ?length_zip_with; lia.
  - intros t Ht _ _ st.
    destruct (adam_run st lr t g n) as (H1 & H2 & _); auto.
    repeat constructor; cbv [zeros]; simpl; rewrite ?length_replicate; lia.
Qed.
(** ** The further theorems at concrete arguments *)

Lemma unpaired_untouched_witness :
  let st := Store example_params [[0; 0]] example_hyperparams in
  let st2 := Store example_params [([0; 0], [0; 0])] example_hyperparams in
  ((length (params st) <= 1)%nat \/ (length (states st) <= 1)%nat) /\
  ((length (params st2) <= 1)%nat \/ (length (states st2) <= 1)%nat) /\
  params (adagrad st).2 !! 1%nat = Some (NDArray [0] [1]) /\
  params (adam st2).2 !! 1%nat = Some (NDArray [0] [1]).
Proof.
  intros st st2.
  assert ((length (params st) <= 1)%nat \/ (length (states st) <= 1)%nat) as H1
    by (right; simpl; lia).
  assert ((length (params st2) <= 1)%nat \/ (length (states st2) <= 1)%nat) as H2
    by (right; simpl; lia).
  split; [exact H1|]. split; [exact H2|].
  destruct (unpaired_untouched st st2 1 H1 H2) as (_ & [Ha _] & _ & [Hb _]).
  split; [exact Ha | exact Hb].
Defined.

Lemma rules_without_pairs_witness :
  (([] : list ndarray) = [] \/ example_states = []) /\
  (([] : list ndarray) = [] \/ example_adam_states = []) /\
  adagrad (Store [] example_states example_hyperparams)
    = (inr tt, Store [] example_states example_hyperparams) /\
  adam (Store [] example_adam_states example_hyperparams)
    = (inr tt, Store [] example_adam_states
                 (<["t" := PyInt 2]> example_hyperparams)).
Proof.
  assert (([] : list ndarray) = [] \/ example_states = []) as H1 by (left; reflexivity).
  assert (([] : list ndarray) = [] \/ example_adam_states = []) as H2
    by (left; reflexivity).
  split; [exact H1|]. split; [exact H2|].
  destruct (rules_without_pairs [] example_states example_adam_states
              example_hyperparams H1 H2) as (_ & Ha & _ & Hb).
  split; [exact Ha | exact Hb].
Defined.

Lemma sgd_momentum_missing_key_witness :
  let hp : gmap string pyval := {["lr" := PyFloat 0.01]} in
  (hp !! "momentum" = None \/ hp !! "lr" = None) /\
  (sgd_momentum (Store example_params example_states hp)).1
    = inl (KeyError "momentum").
Proof.
  intros hp.
  assert (hp !! "momentum" = None \/ hp !! "lr" = None) as H by (left; reflexivity).
  split; [exact H|].
  exact (f_equal fst
           (sgd_momentum_missing_key (NDArray [1; 2] [0.5; -1]) [NDArray [0] [1]]
              (zeros 2) [zeros 1] hp H)).
Defined.


Lemma adam_missing_key_witness :
  let hp : gmap string pyval := {["t" := PyInt 1]} in
  ((hp !! "t" = None \/ hp !! "lr" = None) /\
   (forall t, hp !! "t" = Some t -> time_step_in_range t) /\
   length (zeros 2) = length (grad (NDArray [1; 2] [0.5; -1])) /\
   length (zeros 2) = length (grad (NDArray [1; 2] [0.5; -1]))) /\
  (adam (Store example_params example_adam_states hp)).1 = inl (KeyError "lr").
Proof.
  intros hp.
  assert (hp !! "t" = None \/ hp !! "lr" = None) as H by (right; reflexivity).
  assert (forall t, hp !! "t" = Some t -> time_step_in_range t) as Ht.
  { intros t Ht. assert (t = PyInt 1) as -> by (by inversion Ht).
    repeat split; apply Rabs_le; simpl; lra. }
  assert (length (zeros 2) = length (grad (NDArray [1; 2] [0.5; -1]))) as Hs
    by reflexivity.
  split; [auto|].
  exact (f_equal fst
           (adam_missing_key (NDArray [1; 2] [0.5; -1]) [NDArray [0] [1]]
              (zeros 2) (zeros 2) [(zeros 1, zeros 1)] hp H Ht Hs Hs)).
Defined.

Lemma adagrad_step_bounded_witness :
  let st := Store example_params example_states example_hyperparams in
  (hyperparams st !! "lr" = Some (PyFloat 0.01) /\ well_shaped st /\
   Forall (Forall (fun x => 0 <= x)) (states st) /\
   params st !! 0%nat = Some (NDArray [1; 2] [0.5; -1])) /\
  exists p',
    params (adagrad st).2 !! 0%nat = Some p' /\
    Forall2 (fun x x' => Rabs (x' - x) <= Rabs 0.01) [1; 2] (data p').
Proof.
  intros st.
  assert (hyperparams st !! "lr" = Some (PyFloat 0.01)) as Hlr by reflexivity.
  assert (well_shaped st) as Hs by (repeat constructor).
  assert (Forall (Forall (fun x => 0 <= x)) (states st)) as H0
    by (repeat constructor; lra).
  assert (params st !! 0%nat = Some (NDArray [1; 2] [0.5; -1])) as Hp by reflexivity.
  split; [auto|].
  assert (exists p', params (adagrad st).2 !! 0%nat = Some p') as [p' Hp']
    by (eexists; reflexivity).
  exists p'. split; [exact Hp'|].
  exact (adagrad_step_bounded st (PyFloat 0.01) 0 _ p' Hlr Hs H0 Hp Hp').
Defined.

Lemma rmsprop_step_bounded_witness :
  let st := Store example_params example_states example_hyperparams in
  (hyperparams st !! "gamma" = Some (PyFloat 0.9) /\ 0 <= to_R (PyFloat 0.9) <= 1 /\
   hyperparams st !! "lr" = Some (PyFloat 0.01) /\ well_shaped st /\
   Forall (Forall (fun x => 0 <= x)) (states st) /\
   params st !! 0%nat = Some (NDArray [1; 2] [0.5; -1])) /\
  exists p',
    params (rmsprop st).2 !! 0%nat = Some p' /\
    Forall2 (fun x x' => sqrt (1 - 0.9) * Rabs (x' - x) <= Rabs 0.01) [1; 2] (data p').
Proof.
  intros st.
  assert (hyperparams st !! "gamma" = Some (PyFloat 0.9)) as Hg by reflexivity.
  assert (0 <= to_R (PyFloat 0.9) <= 1) as Hr by (simpl; lra).
  assert (hyperparams st !! "lr" = Some (PyFloat 0.01)) as Hlr by reflexivity.
  assert (well_shaped st) as Hs by (repeat constructor).
  assert (Forall (Forall (fun x => 0 <= x)) (states st)) as H0
    by (repeat constructor; lra).
  assert (params st !! 0%nat = Some (NDArray [1; 2] [0.5; -1])) as Hp by reflexivity.
  split; [auto 10|].
  assert (exists p', params (rmsprop st).2 !! 0%nat = Some p') as [p' Hp']
    by (eexists; reflexivity).
  exists p'. split; [exact Hp'|].
  exact (rmsprop_step_bounded st (PyFloat 0.9) (PyFloat 0.01) 0 _ p'
           Hg Hr Hlr Hs H0 Hp Hp').
Defined.

Lemma adam_first_step_any_gradient_witness :
  let st := Store example_params example_adam_states example_hyperparams in
  (hyperparams st !! "lr" = Some (PyFloat 0.01) /\
   hyperparams st !! "t" = Some (PyInt 1) /\
   Forall (fun c : ndarray * (tensor * tensor) =>
             length (grad c.1) = length (data c.1) /\
             c.2 = (zeros (length (data c.1)), zeros (length (data c.1))))
     (zip (params st) (states st)) /\
   params st !! 0%nat = Some (NDArray [1; 2] [0.5; -1]) /\
   states st !! 0%nat = Some (zeros 2, zeros 2)) /\
  states (adam st).2 !! 0%nat
    = Some ([0.1 * 0.5; 0.1 * -1], [0.001 * 0.5 * 0.5; 0.001 * -1 * -1]).
Proof.
  intros st.
  assert (hyperparams st !! "lr" = Some (PyFloat 0.01)) as Hlr by reflexivity.
  assert (hyperparams st !! "t" = Some (PyInt 1)) as Ht by reflexivity.
  assert (Forall (fun c : ndarray * (tensor * tensor) =>
                    length (grad c.1) = length (data c.1) /\
                    c.2 = (zeros (length (data c.1)), zeros (length (data c.1))))
            (zip (params st) (states st))) as Hc by (repeat constructor).
  assert (params st !! 0%nat = Some (NDArray [1; 2] [0.5; -1])) as Hp by reflexivity.
  assert (states st !! 0%nat = Some (zeros 2, zeros 2)) as Hv by reflexivity.
  split; [auto 10|].
  exact (proj1 (proj2 (adam_first_step_any_gradient st (PyFloat 0.01) 0 _ _
                         Hlr Ht Hc Hp Hv))).
Defined.

Lemma rmsprop_gamma_zero_is_adagrad_from_zero_witness :
  let st := Store example_params [[3; 4]; [5]]
              {["lr" := PyFloat 0.01; "gamma" := PyInt 0]} in
  (hyperparams st !! "gamma" = Some (PyInt 0) /\ to_R (PyInt 0) = 0 /\
   hyperparams st !! "lr" = Some (PyFloat 0.01) /\ well_shaped st) /\
  zip (params (rmsprop st).2) (states (rmsprop st).2)
  = zip (params (adagrad (Store example_params [[0; 0]; [0]] (hyperparams st))).2)
        (states (adagrad (Store example_params [[0; 0]; [0]] (hyperparams st))).2).
Proof.
  intros st.
  assert (hyperparams st !! "gamma" = Some (PyInt 0)) as Hg by reflexivity.
  assert (to_R (PyInt 0) = 0) as Hg0 by reflexivity.
  assert (hyperparams st !! "lr" = Some (PyFloat 0.01)) as Hlr by reflexivity.
  assert (well_shaped st) as Hs by (repeat constructor).
  split; [auto|].
  exact (proj2 (proj2 (rmsprop_gamma_zero_is_adagrad_from_zero st (PyInt 0)
                         (PyFloat 0.01) Hg Hg0 Hlr Hs))).
Defined.


Lemma momentum_terminal_velocity_witness :
  let st := Store example_params example_states example_hyperparams in
  (hyperparams st !! "momentum" = Some (PyFloat 0.5) /\
   0 <= to_R (PyFloat 0.5) < 1 /\
   hyperparams st !! "lr" = Some (PyFloat 0.01) /\
   Forall (fun pc : ndarray * tensor => pc.2 = zeros (length (data pc.1)))
     (zip (params st) (states st))) /\
  (train sgd_momentum (const_grad 1) 0 20 st).1 = inr tt.
Proof.
  intros st.
  assert (hyperparams st !! "momentum" = Some (PyFloat 0.5)) as Hm by reflexivity.
  assert (0 <= to_R (PyFloat 0.5) < 1) as Hr by (simpl; lra).
  assert (hyperparams st !! "lr" = Some (PyFloat 0.01)) as Hlr by reflexivity.
  assert (Forall (fun pc : ndarray * tensor => pc.2 = zeros (length (data pc.1)))
            (zip (params st) (states st))) as H0 by (repeat constructor).
  split; [auto|].
  exact (proj1 (momentum_terminal_velocity st (PyFloat 0.5) (PyFloat 0.01) 1 20
                  Hm Hr Hlr H0)).
Defined.

Lemma adam_time_step_after_run_witness :
  let st := Store example_params example_adam_states example_hyperparams in
  (hyperparams st !! "lr" = Some (PyFloat 0.01) /\
   hyperparams st !! "t" = Some (PyInt 1) /\
   (1 <= 1)%Z /\ convertible (PyInt (1 + Z.of_nat 10)) /\
   Forall (fun c : ndarray * (tensor * tensor) =>
             length c.2.1 = length (data c.1) /\ length c.2.2 = length (data c.1))
     (zip (params st) (states st)) /\
   (forall k i p, length (const_grad 1 k i p) = length (data p))) /\
  hyperparams (train adam (const_grad 1) 0 10 st).2
    = <["t" := PyInt 11]> (hyperparams st).
Proof.
  intros st.
  assert (hyperparams st !! "lr" = Some (PyFloat 0.01)) as Hlr by reflexivity.
  assert (hyperparams st !! "t" = Some (PyInt 1)) as Ht by reflexivity.
  assert (1 <= 1)%Z as Ht1 by lia.
  assert (convertible (PyInt (1 + Z.of_nat 10))) as Hc
    by (change (convertible (PyInt 11)); apply Rabs_le; simpl; lra).
  assert (Forall (fun c : ndarray * (tensor * tensor) =>
                    length c.2.1 = length (data c.1) /\
                    length c.2.2 = length (data c.1))
            (zip (params st) (states st))) as Hs by (repeat constructor).
  assert (forall k i p, length (const_grad 1 k i p) = length (data p)) as Hg
    by (intros; apply length_replicate).
  split; [auto 10|].
  exact (proj2 (adam_time_step_after_run st (PyFloat 0.01) 1 (const_grad 1) 10
                  Hlr Ht Ht1 Hc Hs Hg)).
Defined.

Lemma adam_constant_gradient_witness :
  let st := Store example_params example_adam_states example_hyperparams in
  (hyperparams st !! "lr" = Some (PyFloat 0.01) /\
   hyperparams st !! "t" = Some (PyInt 1) /\
   Forall (fun pc : ndarray * (tensor * tensor) =>
             pc.2 = (zeros (length (data pc.1)), zeros (length (data pc.1))))
     (zip (params st) (states st))) /\
  (train adam (const_grad 2) 0 5 st).1 = inr tt /\
  hyperparams (train adam (const_grad 2) 0 5 st).2
    = <["t" := PyInt 6]> (hyperparams st).
Proof.
  intros st.
  assert (hyperparams st !! "lr" = Some (PyFloat 0.01)) as Hlr by reflexivity.
  assert (hyperparams st !! "t" = Some (PyInt 1)) as Ht by reflexivity.
  assert (Forall (fun pc : ndarray * (tensor * tensor) =>
                    pc.2 = (zeros (length (data pc.1)), zeros (length (data pc.1))))
            (zip (params st) (states st))) as H0 by (repeat constructor).
  split; [auto|].
  destruct (adam_constant_gradient st (PyFloat 0.01) 2 5 Hlr Ht H0) as (Hr & _ & Hh).
  split; [exact Hr | exact Hh].
Defined.

Lemma gd_2d_decreases_objective_witness :
  (example_globals !! "eta" = Some (PyFloat 0.4) /\ 0 < to_R (PyFloat 0.4) < 0.5) /\
  exists x1' x2',
    gd_2d (-5) (-2) 0 0 example_globals = (inr (x1', x2', 0, 0), example_globals) /\
    0 <= f_2d x1' x2' <= f_2d (-5) (-2).
Proof.
  assert (example_globals !! "eta" = Some (PyFloat 0.4)) as He by reflexivity.
  assert (0 < to_R (PyFloat 0.4) < 0.5) as Hr by (simpl; lra).
  split; [auto|].
  destruct (gd_2d_decreases_objective (-5) (-2) 0 0 (PyFloat 0.4) example_globals
              He Hr) as (x1' & x2' & Hrun & Hf & _).
  exists x1', x2'. split; [exact Hrun | exact Hf].
Defined.

Lemma gd_2d_trajectory_witness :
  example_globals !! "eta" = Some (PyFloat 0.4) /\
  train_2d gd_2d 20 (-5, -2) example_globals
  = (inr ((fun k => ((1 - 0.2 * 0.4) ^ k * -5, (1 - 4 * 0.4) ^ k * -2))
            <$> seq 0 21), example_globals).
Proof.
  assert (example_globals !! "eta" = Some (PyFloat 0.4)) as He by reflexivity.
  split; [exact He|].
  exact (gd_2d_trajectory (PyFloat 0.4) example_globals 20 (-5, -2) He).
Defined.

Lemma gd_2d_diverges_witness :
  let G : gmap string pyval := {["eta" := PyFloat 0.6]} in
  (G !! "eta" = Some (PyFloat 0.6) /\ 0.5 < to_R (PyFloat 0.6) /\
   (-5, -2).2 <> 0) /\
  exists steps pts pt,
    train_2d gd_2d steps (-5, -2) G = (inr pts, G) /\
    pts !! steps = Some pt /\ 1000 < Rabs pt.2.
Proof.
  intros G.
  assert (G !! "eta" = Some (PyFloat 0.6)) as He by reflexivity.
  assert (0.5 < to_R (PyFloat 0.6)) as Hr by (simpl; lra).
  assert ((-5, -2).2 <> 0) as Hs by (simpl; lra).
  split; [auto|].
  exact (gd_2d_diverges (PyFloat 0.6) G (-5, -2) 1000 He Hr Hs).
Defined.

Lemma momentum_2d_without_momentum_is_gd_2d_witness :
  let G : gmap string pyval := {["eta" := PyFloat 0.4; "gamma" := PyInt 0]} in
  (G !! "eta" = Some (PyFloat 0.4) /\ G !! "gamma" = Some (PyInt 0) /\
   to_R (PyInt 0) = 0) /\
  train_2d momentum_2d 20 (-5, -2) G = train_2d gd_2d 20 (-5, -2) G.
Proof.
  intros G.
  assert (G !! "eta" = Some (PyFloat 0.4)) as He by reflexivity.
  assert (G !! "gamma" = Some (PyInt 0)) as Hg by reflexivity.
  assert (to_R (PyInt 0) = 0) as H0 by reflexivity.
  split; [auto|].
  exact (momentum_2d_without_momentum_is_gd_2d (PyFloat 0.4) (PyInt 0) G 20 (-5, -2)
           He Hg H0).
Defined.

Lemma momentum_2d_trajectory_bound_witness :
  let G : gmap string pyval := {["eta" := PyFloat 0.6; "gamma" := PyFloat 0.5]} in
  (G !! "eta" = Some (PyFloat 0.6) /\ G !! "gamma" = Some (PyFloat 0.5)) /\
  exists pts,
    train_2d momentum_2d 20 (-5, -2) G = (inr pts, G) /\
    forall k y1 y2, pts !! k = Some (y1, y2) ->
      1.19 * y2 ^ 2 <= 9.6 * 0.5 ^ S k * (-2) ^ 2.
Proof.
  intros G.
  assert (G !! "eta" = Some (PyFloat 0.6)) as He by reflexivity.
  assert (G !! "gamma" = Some (PyFloat 0.5)) as Hg by reflexivity.
  split; [auto|].
  destruct (momentum_2d_trajectory_bound (PyFloat 0.6) (PyFloat 0.5) G 20 (-5, -2)
              He Hg) as (pts & Hrun & Hb).
  exists pts. split; [exact Hrun|].
  intros k y1 y2 Hk. destruct (Hb k y1 y2 Hk) as [_ B2].
  cbn [to_R fst snd] in B2. lra.
Defined.

Lemma adagrad_2d_from_nonnegative_accumulators_witness :
  (example_globals !! "eta" = Some (PyFloat 0.4) /\ convertible (PyFloat 0.4) /\
   coordinate_sized (-5) /\ coordinate_sized (-2) /\ float_sized 0 /\
   0 <= 0) /\
  exists x1' x2' s1' s2',
    adagrad_2d (-5) (-2) 0 0 example_globals
      = (inr (x1', x2', s1', s2'), example_globals) /\
    Rabs (x1' - -5) <= Rabs 0.4 /\ Rabs (x2' - -2) <= Rabs 0.4.
Proof.
  assert (example_globals !! "eta" = Some (PyFloat 0.4)) as He by reflexivity.
  assert (convertible (PyFloat 0.4)) as Ce by (apply Rabs_le; simpl; lra).
  assert (coordinate_sized (-5)) as C1 by (apply Rabs_le; lra).
  assert (coordinate_sized (-2)) as C2 by (apply Rabs_le; lra).
  assert (float_sized 0) as Cs by (apply Rabs_le; lra).
  assert (0 <= 0) as H0 by lra.
  split; [auto 10|].
  destruct (adagrad_2d_from_nonnegative_accumulators (-5) (-2) 0 0 (PyFloat 0.4)
              example_globals He Ce C1 C2 Cs Cs H0 H0)
    as (x1' & x2' & s1' & s2' & Hrun & _ & _ & B1 & B2 & _).
  exists x1', x2', s1', s2'. split; [exact Hrun|]. split; [exact B1 | exact B2].
Defined.


Lemma adagrad_2d_refines_adagrad_witness :
  let hp : gmap string pyval := {["lr" := PyFloat 0.4]} in
  (example_globals !! "eta" = Some (PyFloat 0.4) /\
   hp !! "lr" = Some (PyFloat 0.4) /\ 0 <= 0 /\ 0 <= 0) /\
  exists x1' x2' s1' s2',
    adagrad_2d (-5) (-2) 0 0 example_globals
      = (inr (x1', x2', s1', s2'), example_globals) /\
    adagrad (Store [NDArray [-5; -2] [0.2 * -5; 4 * -2]] [[0; 0]] hp)
      = (inr tt, Store [NDArray [x1'; x2'] [0.2 * -5; 4 * -2]] [[s1'; s2']] hp).
Proof.
  intros hp.
  assert (example_globals !! "eta" = Some (PyFloat 0.4)) as He by reflexivity.
  assert (hp !! "lr" = Some (PyFloat 0.4)) as Hlr by reflexivity.
  assert (0 <= 0) as H0 by lra.
  split; [auto|].
  exact (adagrad_2d_refines_adagrad (-5) (-2) 0 0 (PyFloat 0.4) example_globals hp
           He Hlr H0 H0).
Defined.

Lemma rmsprop_2d_from_nonnegative_accumulators_witness :
  let G : gmap string pyval := {["eta" := PyFloat 0.4; "gamma" := PyFloat 0.9]} in
  (G !! "eta" = Some (PyFloat 0.4) /\ G !! "gamma" = Some (PyFloat 0.9) /\
   convertible (PyFloat 0.4) /\
   coordinate_sized (-5) /\ coordinate_sized (-2) /\ float_sized 0 /\
   0 <= to_R (PyFloat 0.9) <= 1 /\ 0 <= 0) /\
  exists x1' x2' s1' s2',
    rmsprop_2d (-5) (-2) 0 0 G = (inr (x1', x2', s1', s2'), G) /\
    sqrt (1 - 0.9) * Rabs (x1' - -5) <= Rabs 0.4.
Proof.
  intros G.
  assert (G !! "eta" = Some (PyFloat 0.4)) as He by reflexivity.
  assert (G !! "gamma" = Some (PyFloat 0.9)) as Hg by reflexivity.
  assert (convertible (PyFloat 0.4)) as Ce by (apply Rabs_le; simpl; lra).
  assert (coordinate_sized (-5)) as C1 by (apply Rabs_le; lra).
  assert (coordinate_sized (-2)) as C2 by (apply Rabs_le; lra).
  assert (float_sized 0) as Cs by (apply Rabs_le; lra).
  assert (0 <= to_R (PyFloat 0.9) <= 1) as Hr by (simpl; lra).
  assert (0 <= 0) as H0 by lra.
  split; [auto 10|].
  destruct (rmsprop_2d_from_nonnegative_accumulators (-5) (-2) 0 0 (PyFloat 0.4)
              (PyFloat 0.9) G He Hg Ce C1 C2 Cs Cs Hr H0 H0)
    as (x1' & x2' & s1' & s2' & Hrun & _ & _ & B1 & _).
  exists x1', x2', s1', s2'. split; [exact Hrun | exact B1].
Defined.

Lemma rmsprop_2d_refines_rmsprop_witness :
  let G : gmap string pyval := {["eta" := PyFloat 0.4; "gamma" := PyFloat 0.9]} in
  let hp : gmap string pyval := {["lr" := PyFloat 0.4; "gamma" := PyFloat 0.9]} in
  (G !! "eta" = Some (PyFloat 0.4) /\ G !! "gamma" = Some (PyFloat 0.9) /\
   hp !! "lr" = Some (PyFloat 0.4) /\ hp !! "gamma" = Some (PyFloat 0.9) /\
   0 <= to_R (PyFloat 0.9) <= 1 /\ 0 <= 0 /\ 0 <= 0) /\
  exists x1' x2' s1' s2',
    rmsprop_2d (-5) (-2) 0 0 G = (inr (x1', x2', s1', s2'), G) /\
    rmsprop (Store [NDArray [-5; -2] [0.2 * -5; 4 * -2]] [[0; 0]] hp)
      = (inr tt, Store [NDArray [x1'; x2'] [0.2 * -5; 4 * -2]] [[s1'; s2']] hp).
Proof.
  intros G hp.
  assert (G !! "eta" = Some (PyFloat 0.4)) as He by reflexivity.
  assert (G !! "gamma" = Some (PyFloat 0.9)) as Hg by reflexivity.
  assert (hp !! "lr" = Some (PyFloat 0.4)) as Hlr by reflexivity.
  assert (hp !! "gamma" = Some (PyFloat 0.9)) as Hgam by reflexivity.
  assert (0 <= to_R (PyFloat 0.9) <= 1) as Hr by (simpl; lra).
  assert (0 <= 0) as H0 by lra.
  split; [auto 10|].
  exact (rmsprop_2d_refines_rmsprop (-5) (-2) 0 0 (PyFloat 0.4) (PyFloat 0.9) G hp
           He Hg Hlr Hgam Hr H0 H0).
Defined.


Lemma rules_read_only_their_keys_witness :
  let hp' := <["batch_size" := PyInt 10]> example_hyperparams in
  hp' !! "lr" = example_hyperparams !! "lr" /\
  same_outcome (adagrad (Store example_params example_states hp'))
    (adagrad (Store example_params example_states example_hyperparams)).
Proof.
  intros hp'.
  assert (hp' !! "lr" = example_hyperparams !! "lr") as Hlr by reflexivity.
  split; [exact Hlr|].
  exact (proj1 (proj2 (rules_read_only_their_keys example_params example_states
                         example_adam_states example_hyperparams hp' Hlr))).
Defined.

Lemma runs_from_initial_states_witness :
  let w := NDArray [1; 2] [0.5; -1] in
  let b := NDArray [0] [1] in
  (length (data w) = 2%nat /\ length (data b) = 1%nat /\
   (forall k i p, length (const_grad 1 k i p) = length (data p)) /\
   example_hyperparams !! "lr" = Some (PyFloat 0.01) /\
   example_hyperparams !! "t" = Some (PyInt 1) /\
   (1 <= 1)%Z /\ convertible (PyInt (1 + Z.of_nat 10))) /\
  (train adagrad (const_grad 1) 0 10
     (Store [w; b] (init_adagrad_states 2) example_hyperparams)).1 = inr tt /\
  (train adam (const_grad 1) 0 10
     (Store [w; b] (init_adam_states 2) example_hyperparams)).1 = inr tt.
Proof.
  intros w b.
  assert (length (data w) = 2%nat) as Hw by reflexivity.
  assert (length (data b) = 1%nat) as Hb by reflexivity.
  assert (forall k i p, length (const_grad 1 k i p) = length (data p)) as Hg
    by (intros; apply length_replicate).
  assert (example_hyperparams !! "lr" = Some (PyFloat 0.01)) as Hlr by reflexivity.
  assert (example_hyperparams !! "t" = Some (PyInt 1)) as Ht by reflexivity.
  assert (1 <= 1)%Z as Ht1 by lia.
  assert (convertible (PyInt (1 + Z.of_nat 10))) as Hc
    by (change (convertible (PyInt 11)); apply Rabs_le; simpl; lra).
  split; [auto 10|].
  destruct (runs_from_initial_states 2 w b example_hyperparams (PyFloat 0.01)
              (const_grad 1) 10 Hw Hb Hg Hlr) as (_ & Ha & _ & Hd).
  split; [exact (proj1 Ha) | exact (proj1 (Hd 1%Z Ht Ht1 Hc))].
Defined.
